(** * AstroZap scripts: the zap equation, its Newton solver and the XY-K
      swap simulator

    A shallow embedding of the two numerical helpers of the TypeScript
    scripts: the class [Equation] (constructor, [computeValue],
    [computeDerivValue], [solve]) and the function [computeXykSwapOutput].

    Both are written against bn.js.  A [BN] is an arbitrary-precision
    signed integer, embedded as [Z]; the arguments of type [BigNumberish]
    (a [BN], a decimal string, or a JavaScript number that is a safe
    integer) are taken through [new BN(..)] as the integer they denote.
    The bn.js
    operations the scripts call are embedded in [Module BN]; the ones that
    can throw ([div], [toNumber]) return in the monad [M], which also
    carries the lines written with [console.log]. *)

From Stdlib Require Import ZArith List String Bool Lia.
From Stdlib Require Import DecimalString DecimalPos DecimalZ.
Import ListNotations.

Local Open Scope Z_scope.

(** ** Exceptions and console output *)

(** A JavaScript [Error] with its message: what [assert] of bn.js throws. *)
Inductive JsError : Type :=
  | Error (msg : string).

(** The lines the scripts write with [console.log], kept as the numbers
    they are formatted from. *)
Inductive ConsoleLine : Type :=
  | IterationLine (i : nat) (x val derivVal : Z)
  | CpLine (cp : Z)
  | ReturnAmountLine (returnAmount : Z)
  | CommissionLine (commission : Z).

(** A computation writes console lines and then either throws or returns. *)
Record M (A : Type) : Type := mkM
  { console : list ConsoleLine;
    outcome : JsError + A }.

Arguments mkM {A} _ _.
Arguments console {A} _.
Arguments outcome {A} _.

Definition ret {A : Type} (v : A) : M A := mkM [] (inr v).

Definition throw {A : Type} (err : JsError) : M A := mkM [] (inl err).

Definition console_log (l : ConsoleLine) : M unit := mkM [l] (inr tt).

Definition bind {A B : Type} (m : M A) (k : A -> M B) : M B :=
  match outcome m with
  | inl err => mkM (console m) (inl err)
  | inr v => let r := k v in mkM (console m ++ console r) (outcome r)
  end.

Declare Scope js_scope.
Delimit Scope js_scope with js.
Notation "x <- m ;; k" := (bind m (fun x => k))
  (at level 61, m at next level, right associativity) : js_scope.
Notation "m ;;; k" := (bind m (fun _ => k))
  (at level 61, right associativity) : js_scope.
Local Open Scope js_scope.

(** The value a computation returns, if it returns. *)
Definition returned {A : Type} (m : M A) : option A :=
  match outcome m with
  | inr v => Some v
  | inl _ => None
  end.

(** The exception a computation throws, if it throws. *)
Definition thrown {A : Type} (m : M A) : option JsError :=
  match outcome m with
  | inr _ => None
  | inl err => Some err
  end.

(** ** bn.js *)

Module BN.

(** [assert(val, msg)]: throws [new Error(msg || 'Assertion failed')]. *)
Definition assertion_failed : JsError := Error "Assertion failed".
Definition number_too_large : JsError :=
  Error "Number can only safely store up to 53 bits".

(** [add], [sub], [mul] are exact. *)
Definition add (x y : Z) : Z := x + y.
Definition sub (x y : Z) : Z := x - y.
Definition mul (x y : Z) : Z := x * y.

(** [x.div(y)]: [divmod] first asserts [!y.isZero()], then divides the
    magnitudes and negates the quotient when the signs differ, which is
    division truncated toward zero. *)
Definition div (x y : Z) : M Z :=
  if y =? 0 then throw assertion_failed else ret (x ÷ y).

(** A [BN] stores its magnitude in words of 26 bits; [length] is the
    number of words in use (at least one). *)
Definition word (x : Z) (k : Z) : Z :=
  Z.land (Z.shiftr (Z.abs x) (26 * k)) 0x3ffffff.

Definition length (x : Z) : Z :=
  if x =? 0 then 1 else Z.log2 (Z.abs x) / 26 + 1.

(** [x.toNumber()]: the value as a JavaScript number, assembled from at
    most 53 bits; a longer magnitude fails the assertion.  The numbers
    it returns are integers a double holds exactly, so they are
    embedded as [Z] and [==] on them as [Z.eqb]. *)
Definition toNumber (x : Z) : M Z :=
  let ret0 := word x 0 in
  r <- (if length x =? 2 then
          ret (ret0 + word x 1 * 0x4000000)
        else if (length x =? 3) && (word x 2 =? 1) then
          ret (ret0 + (0x10000000000000 + word x 1 * 0x4000000))
        else if 2 <? length x then
          throw number_too_large
        else ret ret0) ;;
  ret (if x <? 0 then - r else r).

(** [x.toString()]: the decimal numeral, with a leading minus sign for a
    negative number. *)
Definition toString (x : Z) : string :=
  NilZero.string_of_int (Z.to_int x).

End BN.

(** The text of a console line: the template string of [solve], and the
    label and numeral of each [console.log] of the simulator. *)
Definition render (l : ConsoleLine) : string :=
  match l with
  | IterationLine i x val derivVal =>
      "iteration " ++ NilZero.string_of_uint (Nat.to_uint i)
      ++ ", x = " ++ BN.toString x
      ++ ", val = " ++ BN.toString val
      ++ ", derivVal = " ++ BN.toString derivVal
  | CpLine cp => "cp: " ++ BN.toString cp
  | ReturnAmountLine returnAmount =>
      "return amount: " ++ BN.toString returnAmount
  | CommissionLine commission =>
      "commission amount: " ++ BN.toString commission
  end%string.

(** ** The class [Equation] *)

Record Equation : Type := mkEquation
  { a : Z;
    b : Z;
    c : Z }.

Definition MAX_ITERATIONS : nat := 32.

(** The constructor: the coefficients from the four asset amounts. *)
Definition Equation_new (offer_user offer_pool ask_user ask_pool : Z)
  : M Equation :=
  let a := BN.add ask_pool ask_user in
  let b1 := BN.mul (BN.mul offer_pool a) 2 in
  b2 <- BN.div (BN.mul (BN.mul ask_pool (BN.add offer_pool offer_user)) 30)
               10000 ;;
  let b := BN.sub b1 b2 in
  let c := BN.mul offer_pool
             (BN.sub (BN.mul offer_pool ask_user)
                     (BN.mul offer_user ask_pool)) in
  ret (mkEquation a b c).

Definition computeValue (e : Equation) (x : Z) : Z :=
  BN.add (BN.add (BN.mul (BN.mul (a e) x) x) (BN.mul (b e) x)) (c e).

Definition computeDerivValue (e : Equation) (x : Z) : Z :=
  BN.add (BN.mul (BN.mul 2 (a e)) x) (b e).

(** How control leaves the [for] loop of [solve]. *)
Inductive LoopExit : Type :=
  | Break
  | Exhausted.

(** The loop of [solve], entered with counter [i] and [fuel] iterations
    left ([fuel = MAX_ITERATIONS - i]); [x] and [xPrev] are the two
    variables of the source. *)
Fixpoint solve_loop (e : Equation) (fuel : nat) (i : nat) (x xPrev : Z)
  : M (LoopExit * Z) :=
  match fuel with
  | O => ret (Exhausted, x)
  | S fuel' =>
      let val := computeValue e x in
      let derivVal := computeDerivValue e x in
      q <- BN.div val derivVal ;;
      let x := BN.sub xPrev q in
      console_log (IterationLine (i + 1) x val derivVal) ;;;
      nx <- BN.toNumber x ;;
      np <- BN.toNumber xPrev ;;
      if nx =? np then ret (Break, x)
      else solve_loop e fuel' (S i) x x
  end.

Definition solve_run (e : Equation) : M (LoopExit * Z) :=
  solve_loop e MAX_ITERATIONS 0 0 0.

Definition solve (e : Equation) : M string :=
  r <- solve_run e ;;
  ret (BN.toString (snd r)).

(** ** The swap simulator *)

Definition DECIMAL_FRACTIONAL : Z := 1000000000000000000.

Definition computeXykSwapOutput (offerAmount offerDepth askDepth : Z)
  : M string :=
  let cp := BN.mul offerDepth askDepth in
  console_log (CpLine cp) ;;;
  let offerDepthAfter := BN.add offerDepth offerAmount in
  askDepthAfter <- BN.div (BN.mul cp DECIMAL_FRACTIONAL) offerDepthAfter ;;
  returnAmount <-
    BN.div (BN.sub (BN.mul askDepth DECIMAL_FRACTIONAL) askDepthAfter)
           DECIMAL_FRACTIONAL ;;
  console_log (ReturnAmountLine returnAmount) ;;;
  commission <- BN.div (BN.mul returnAmount 30) 10000 ;;
  console_log (CommissionLine commission) ;;;
  let returnAmountAfterFee := BN.sub returnAmount commission in
  ret (BN.toString returnAmountAfterFee).

(** * Notions the statements use *)

(** ** The Newton iteration in full precision *)

(** The iteration as the specification words it: value [a*x^2 + b*x + c],
    derivative [2*a*x + b], next iterate [x - value / derivative] with the
    quotient truncated, from [x0 = 0]. *)
Definition spec_value (e : Equation) (x : Z) : Z :=
  a e * x ^ 2 + b e * x + c e.

Definition spec_derivative (e : Equation) (x : Z) : Z :=
  2 * a e * x + b e.

Definition spec_next (e : Equation) (x : Z) : Z :=
  x - spec_value e x ÷ spec_derivative e x.

Definition iterate_from (e : Equation) (x : Z) (n : nat) : Z :=
  Nat.iter n (spec_next e) x.

Definition iterate (e : Equation) (n : nat) : Z := iterate_from e 0 n.

(** ** Runs of the loop *)

(** A magnitude [toNumber] accepts. *)
Definition fits53 (x : Z) : bool := Z.abs x <? 2 ^ 53.

Definition prepend {A : Type} (l : ConsoleLine) (m : M A) : M A :=
  mkM (l :: console m) (outcome m).

(** The line the [n]-th turn (counted from 0) of a loop entered at counter
    [i] with iterate [x] writes. *)
Definition line_at (e : Equation) (i : nat) (x : Z) (n : nat) : ConsoleLine :=
  IterationLine (i + n + 1) (iterate_from e x (S n))
    (spec_value e (iterate_from e x n))
    (spec_derivative e (iterate_from e x n)).

(** What holds of a run of the loop entered at counter [i] with [x] and
    [xPrev] both holding [x]: the lines it writes follow the full-precision
    iterates, which differ pairwise and fit 53 bits as long as the loop
    goes on, and the way the loop ends tells how far the iterates went. *)
Record loop_facts (e : Equation) (fuel i : nat) (x : Z)
    (run : M (LoopExit * Z)) : Prop :=
  { lf_length : (List.length (console run) <= fuel)%nat;
    lf_lines : forall n line,
        nth_error (console run) n = Some line -> line = line_at e i x n;
    lf_moving : forall n,
        (S n < List.length (console run))%nat ->
        iterate_from e x (S n) <> iterate_from e x n;
    lf_fits : forall r n,
        outcome run = inr r ->
        (n < List.length (console run))%nat ->
        fits53 (iterate_from e x (S n)) = true;
    lf_result : forall ex y,
        outcome run = inr (ex, y) ->
        y = iterate_from e x (List.length (console run));
    lf_break : forall y,
        outcome run = inr (Break, y) ->
        exists n, List.length (console run) = S n /\
                  iterate_from e x (S n) = iterate_from e x n;
    lf_exhausted : forall y,
        outcome run = inr (Exhausted, y) ->
        List.length (console run) = fuel /\
        forall n, (n < fuel)%nat ->
                  iterate_from e x (S n) <> iterate_from e x n }.

(** The part of the line the loop does not leave: 0, where it starts, and
    from the first iterate on the iterates up to the first that are right
    of the root or do not move. *)
Definition reached (e : Equation) (x : Z) : Prop :=
  x = 0 \/
  (0 <= x <= iterate e 1 /\ - spec_derivative e x < spec_value e x).

(** ** The amount of a swap *)

(** The amount the simulator returns, as a function of its arguments. *)
Definition returnAmountAfterFee (offerAmount offerDepth askDepth : Z) : Z :=
  let cp := offerDepth * askDepth in
  let offerDepthAfter := offerDepth + offerAmount in
  let askDepthAfter := (cp * 10 ^ 18) ÷ offerDepthAfter in
  let returnAmount := (askDepth * 10 ^ 18 - askDepthAfter) ÷ 10 ^ 18 in
  let commission := (returnAmount * 30) ÷ 10000 in
  returnAmount - commission.

(** ** Three equations *)

(** An equation built from well-formed amounts on which the loop runs its
    32 turns without two consecutive iterates agreeing. *)
Definition slow_equation : Equation :=
  {| a := 1000; b := 3; c := -6656932835994000 |}.

(** An equation built from well-formed amounts on which the loop finds two
    equal iterates at its third turn. *)
Definition quick_equation : Equation :=
  {| a := 1000000000;
     b := 1996984311209000000;
     c := -5229597000000000000000000 |}.

(** An equation built from amounts of a token with 18 decimals: reserves
    of one token each, a deposit of a tenth of a token. *)
Definition large_equation : Equation :=
  {| a := 1000000000000000000;
     b := 1996700000000000000000000000000000000;
     c := -100000000000000000000000000000000000000000000000000000 |}.

(** ** Notions of the further properties *)

(** The amount of the asked asset before the commission. *)
Definition returnAmount (offerAmount offerDepth askDepth : Z) : Z :=
  (askDepth * 10 ^ 18
   - (offerDepth * askDepth * 10 ^ 18) ÷ (offerDepth + offerAmount))
  ÷ 10 ^ 18.

(** Where the iteration runs when the asked asset is in excess: at or
    below 0, with the value not negative and the derivative positive. *)
Definition downhill (e : Equation) (x : Z) : Prop :=
  x <= 0 /\ 0 <= spec_value e x /\ 0 < spec_derivative e x.

(** * Properties *)

(** ** The monad *)

Lemma bind_ret_l {A B : Type} (v : A) (k : A -> M B) :
  bind (ret v) k = k v.
Proof. unfold bind, ret; simpl. destruct (k v); reflexivity. Qed.

Lemma bind_throw {A B : Type} (err : JsError) (k : A -> M B) :
  bind (throw err) k = throw err.
Proof. reflexivity. Qed.

Lemma bind_log {B : Type} (l : ConsoleLine) (k : unit -> M B) :
  bind (console_log l) k = mkM (l :: console (k tt)) (outcome (k tt)).
Proof. reflexivity. Qed.

(** ** bn.js: division and conversion to a number *)

Module BNFacts.

Lemma div_nonzero x y : y <> 0 -> BN.div x y = ret (x ÷ y).
Proof.
  intros Hy. unfold BN.div. destruct (Z.eqb_spec y 0); [contradiction|reflexivity].
Qed.

Lemma div_zero x : BN.div x 0 = throw BN.assertion_failed.
Proof. reflexivity. Qed.

Lemma word_div_mod x k :
  0 <= k -> BN.word x k = (Z.abs x / 2 ^ (26 * k)) mod 2 ^ 26.
Proof.
  intros Hk. unfold BN.word. rewrite Z.shiftr_div_pow2 by lia.
  change 0x3ffffff with (Z.ones 26). rewrite Z.land_ones by lia.
  reflexivity.
Qed.

Lemma length_le x n :
  0 < n -> (BN.length x <= n <-> Z.abs x < 2 ^ (26 * n)).
Proof.
  intros Hn. unfold BN.length. destruct (Z.eqb_spec x 0) as [->|Hx].
  - change (Z.abs 0) with 0.
    split; intros _; [apply Z.pow_pos_nonneg; lia | lia].
  - assert (Hpos : 0 < Z.abs x) by lia.
    rewrite (Z.log2_lt_pow2 _ _ Hpos).
    pose proof (Z.log2_nonneg (Z.abs x)) as HL.
    revert HL. generalize (Z.log2 (Z.abs x)). intros L HL.
    pose proof (Z.div_mod L 26 ltac:(lia)).
    pose proof (Z.mod_pos_bound L 26 ltac:(lia)).
    lia.
Qed.

Lemma length_pos x : 1 <= BN.length x.
Proof.
  unfold BN.length. destruct (x =? 0); [lia|].
  pose proof (Z.log2_nonneg (Z.abs x)) as HL.
  revert HL. generalize (Z.log2 (Z.abs x)). intros L HL.
  pose proof (Z.div_pos L 26 HL ltac:(lia)). lia.
Qed.

(** The magnitude is its three lowest words plus what lies above. *)
Lemma words_split m :
  0 <= m ->
  m = m mod 2 ^ 26 + ((m / 2 ^ 26) mod 2 ^ 26) * 2 ^ 26
      + (m / 2 ^ 52) * 2 ^ 52.
Proof.
  intros Hm.
  replace (m / 2 ^ 52) with (m / 2 ^ 26 / 2 ^ 26)
    by (rewrite Z.div_div by lia; reflexivity).
  pose proof (Z.div_mod m (2 ^ 26) ltac:(lia)).
  pose proof (Z.div_mod (m / 2 ^ 26) (2 ^ 26) ltac:(lia)).
  lia.
Qed.

Lemma signed_abs x : (if x <? 0 then - Z.abs x else Z.abs x) = x.
Proof. destruct (Z.ltb_spec x 0); lia. Qed.

(** [toNumber] returns the integer itself when its magnitude is below
    2^53 ... *)
Lemma toNumber_small x : Z.abs x < 2 ^ 53 -> BN.toNumber x = ret x.
Proof.
  intros Hx. unfold BN.toNumber.
  pose proof (length_pos x) as H1.
  pose proof (length_le x 1 ltac:(lia)) as L1.
  pose proof (length_le x 2 ltac:(lia)) as L2.
  change (26 * 1) with 26 in L1. change (26 * 2) with 52 in L2.
  rewrite !word_div_mod by lia.
  change (26 * 0) with 0. change (26 * 1) with 26. change (26 * 2) with 52.
  rewrite Z.pow_0_r, Z.div_1_r.
  pose proof (Z.abs_nonneg x) as Hm.
  pose proof (words_split (Z.abs x) Hm) as Hs.
  pose proof (signed_abs x) as Hsg.
  assert (Hhi : Z.abs x < 2 ^ 52 -> Z.abs x / 2 ^ 52 = 0)
    by (intros; apply Z.div_small; lia).
  assert (Hhi1 : 2 ^ 52 <= Z.abs x -> Z.abs x / 2 ^ 52 = 1).
  { intros Hge. symmetry. apply (Z.div_unique _ _ 1 (Z.abs x - 2 ^ 52)); lia. }
  assert (Hlo : Z.abs x < 2 ^ 26 -> Z.abs x / 2 ^ 26 = 0)
    by (intros; apply Z.div_small; lia).
  destruct (Z.lt_ge_cases (Z.abs x) (2 ^ 26)) as [C1|C1];
    [|destruct (Z.lt_ge_cases (Z.abs x) (2 ^ 52)) as [C2|C2]].
  - assert (BN.length x = 1) as -> by lia.
    change (1 =? 2) with false. change (1 =? 3) with false.
    change (2 <? 1) with false. cbn [andb].
    rewrite bind_ret_l. rewrite Hlo, Hhi in Hs by lia.
    rewrite Z.mod_0_l in Hs by lia.
    replace (Z.abs x mod 2 ^ 26) with (Z.abs x) by lia.
    rewrite Hsg. reflexivity.
  - assert (BN.length x = 2) as -> by lia.
    change (2 =? 2) with true. cbv iota.
    rewrite bind_ret_l. rewrite Hhi in Hs by lia.
    replace (_ + _ * 67108864) with (Z.abs x) by lia.
    rewrite Hsg. reflexivity.
  - pose proof (length_le x 3 ltac:(lia)) as L3.
    change (26 * 3) with 78 in L3.
    assert (BN.length x = 3) as -> by lia.
    rewrite Hhi1 in * by lia.
    change (3 =? 2) with false. change (3 =? 3) with true.
    change (1 mod 2 ^ 26 =? 1) with true. cbn [andb].
    rewrite bind_ret_l.
    replace (_ + (4503599627370496 + _ * 67108864)) with (Z.abs x) by lia.
    rewrite Hsg. reflexivity.
Qed.

(** ... and fails its assertion otherwise. *)
Lemma toNumber_large x :
  2 ^ 53 <= Z.abs x -> BN.toNumber x = throw BN.number_too_large.
Proof.
  intros Hx. unfold BN.toNumber.
  pose proof (length_le x 2 ltac:(lia)) as L2.
  change (26 * 2) with 52 in L2.
  assert (Hlen : 2 < BN.length x) by lia.
  assert ((BN.length x =? 2) = false) as -> by (apply Z.eqb_neq; lia).
  assert ((BN.length x =? 3) && (BN.word x 2 =? 1) = false) as ->.
  { destruct (Z.eqb_spec (BN.length x) 3) as [E|]; [|reflexivity].
    cbn [andb]. apply Z.eqb_neq. rewrite word_div_mod by lia.
    change (26 * 2) with 52.
    pose proof (length_le x 3 ltac:(lia)) as L3.
    change (26 * 3) with 78 in L3.
    rewrite Z.mod_small.
    - intro H1. 
      pose proof (Z.div_mod (Z.abs x) (2 ^ 52) ltac:(lia)).
      pose proof (Z.mod_pos_bound (Z.abs x) (2 ^ 52) ltac:(lia)). lia.
    - split; [apply Z.div_pos; lia|].
      apply Z.div_lt_upper_bound; [lia|].
      change (2 ^ 52 * 2 ^ 26) with (2 ^ 78). lia. }
  assert ((2 <? BN.length x) = true) as -> by (apply Z.ltb_lt; lia).
  reflexivity.
Qed.

Lemma toNumber_spec x :
  BN.toNumber x =
    if Z.abs x <? 2 ^ 53 then ret x else throw BN.number_too_large.
Proof.
  destruct (Z.ltb_spec (Z.abs x) (2 ^ 53)).
  - now apply toNumber_small.
  - now apply toNumber_large.
Qed.

(** Distinct integers have distinct numerals. *)
Lemma toString_inj x y : BN.toString x = BN.toString y -> x = y.
Proof.
  unfold BN.toString. intros Heq.
  assert (Hnil : forall z, Z.to_int z <> Decimal.Pos Decimal.Nil /\
                           Z.to_int z <> Decimal.Neg Decimal.Nil).
  { intros [|p|p]; cbn [Z.to_int]; split; try discriminate;
      intros [= H]; now apply (DecimalPos.Unsigned.to_uint_nonnil p). }
  apply DecimalZ.to_int_inj.
  pose proof (NilZero.isi (Z.to_int x) (proj1 (Hnil x)) (proj2 (Hnil x))) as Hx.
  pose proof (NilZero.isi (Z.to_int y) (proj1 (Hnil y)) (proj2 (Hnil y))) as Hy.
  rewrite Heq in Hx. congruence.
Qed.

Example toString_zero : BN.toString 0 = "0"%string.
Proof. reflexivity. Qed.

Example toString_negative : BN.toString (-87) = "-87"%string.
Proof. reflexivity. Qed.

End BNFacts.

(** ** The Newton iteration in full precision *)

Lemma computeValue_spec e x : computeValue e x = spec_value e x.
Proof. unfold computeValue, spec_value, BN.add, BN.mul. ring. Qed.

Lemma computeDerivValue_spec e x :
  computeDerivValue e x = spec_derivative e x.
Proof. reflexivity. Qed.

Lemma iterate_from_S e x n :
  iterate_from e x (S n) = iterate_from e (spec_next e x) n.
Proof. unfold iterate_from. now rewrite Nat.iter_succ_r. Qed.

Lemma iterate_S e n : iterate e (S n) = spec_next e (iterate e n).
Proof. reflexivity. Qed.

(** Once two consecutive iterates agree the sequence stays there. *)
Lemma iterate_from_fixed e x n :
  spec_next e x = x -> iterate_from e x n = x.
Proof.
  intros Hfix. induction n as [|n IH]; [reflexivity|].
  rewrite iterate_from_S, Hfix. exact IH.
Qed.

(** ** One turn of the loop of [solve] *)

(** At the head of every turn [x] and [xPrev] hold the same number; the
    turn then goes one of four ways. *)
Lemma solve_loop_step e fuel i x :
  solve_loop e (S fuel) i x x =
    if spec_derivative e x =? 0 then throw BN.assertion_failed
    else
      let x' := spec_next e x in
      let line :=
        IterationLine (i + 1) x' (spec_value e x) (spec_derivative e x) in
      if fits53 x' && fits53 x then
        if x' =? x then mkM [line] (inr (Break, x'))
        else prepend line (solve_loop e fuel (S i) x' x')
      else mkM [line] (inl BN.number_too_large).
Proof.
  cbn [solve_loop]. rewrite computeValue_spec, computeDerivValue_spec.
  unfold BN.div at 1.
  destruct (spec_derivative e x =? 0); [reflexivity|].
  rewrite bind_ret_l, bind_log. unfold BN.sub. fold (spec_next e x).
  rewrite !BNFacts.toNumber_spec. unfold fits53, prepend. cbv zeta.
  destruct (Z.abs (spec_next e x) <? 2 ^ 53); [|reflexivity].
  rewrite bind_ret_l.
  destruct (Z.abs x <? 2 ^ 53); [|reflexivity].
  rewrite bind_ret_l. cbn [andb].
  destruct (spec_next e x =? x); reflexivity.
Qed.

(** ** What a run of the loop writes and returns *)

Lemma solve_loop_facts e fuel :
  forall i x, loop_facts e fuel i x (solve_loop e fuel i x x).
Proof.
  induction fuel as [|fuel IH]; intros i x.
  - cbn. split; cbn; try lia.
    + intros [|n] line; discriminate.
    + intros ex y [= _ <-]. reflexivity.
    + intros y [=].
    + intros y _. split; [reflexivity | lia].
  - rewrite solve_loop_step.
    destruct (spec_derivative e x =? 0).
    { split; cbn; try lia; try discriminate.
      intros [|n] line; discriminate. }
    cbv zeta.
    assert (Hline0 : forall k,
      IterationLine (k + 1) (spec_next e x) (spec_value e x)
        (spec_derivative e x) = line_at e k x 0).
    { intros k. unfold line_at. now rewrite Nat.add_0_r. }
    destruct (fits53 (spec_next e x) && fits53 x) eqn:Hfit.
    2:{ split; cbn; try lia; try discriminate.
        intros [|[|n]] line; try discriminate.
        intros [= <-]. apply Hline0. }
    apply andb_prop in Hfit. destruct Hfit as [Hfit _].
    destruct (Z.eqb_spec (spec_next e x) x) as [Heq|Hne].
    { split; cbn; try lia; try discriminate.
      - intros [|[|n]] line; try discriminate.
        intros [= <-]. apply Hline0.
      - intros r [|n] _ Hn; [exact Hfit | lia].
      - intros ex y [= _ <-]. reflexivity.
      - intros y _. exists O. split; [reflexivity | exact Heq]. }
    specialize (IH (S i) (spec_next e x)).
    destruct IH as [Hlen Hlines Hmov Hfits Hres Hbrk Hexh].
    split; cbn [prepend console outcome List.length].
    + lia.
    + intros [|n] line.
      * intros [= <-]. apply Hline0.
      * cbn [nth_error]. intros Hn. rewrite (Hlines n line Hn).
        unfold line_at. rewrite <- !iterate_from_S.
        f_equal. lia.
    + intros [|n] Hn.
      * exact Hne.
      * rewrite (iterate_from_S e x (S n)), (iterate_from_S e x n).
        apply Hmov. lia.
    + intros r [|n] Hr Hn; [exact Hfit|].
      rewrite (iterate_from_S e x (S n)). apply (Hfits r); [exact Hr | lia].
    + intros ex y Hy. rewrite iterate_from_S. eauto.
    + intros y Hy. destruct (Hbrk y Hy) as (n & Hn & Hst).
      exists (S n). split; [now rewrite Hn|].
      now rewrite (iterate_from_S e x (S n)), (iterate_from_S e x n).
    + intros y Hy. destruct (Hexh y Hy) as [Hn Hall].
      split; [now rewrite Hn|].
      intros [|n] Hlt; [exact Hne|].
      rewrite (iterate_from_S e x (S n)), (iterate_from_S e x n).
      apply Hall. lia.
Qed.

Lemma solve_run_facts e : loop_facts e MAX_ITERATIONS 0 0 (solve_run e).
Proof. apply solve_loop_facts. Qed.

(** [solve] writes what its loop writes, and returns the numeral of the
    loop's last [x]. *)
Lemma solve_unfold e :
  solve e =
    mkM (console (solve_run e))
        (match outcome (solve_run e) with
         | inl err => inl err
         | inr r => inr (BN.toString (snd r))
         end).
Proof.
  unfold solve, bind. destruct (outcome (solve_run e)) as [err|r].
  - reflexivity.
  - cbv zeta. unfold ret. cbn [console outcome]. now rewrite app_nil_r.
Qed.

Lemma solve_console e : console (solve e) = console (solve_run e).
Proof. now rewrite solve_unfold. Qed.

Lemma solve_returned e ex x :
  returned (solve_run e) = Some (ex, x) ->
  returned (solve e) = Some (BN.toString x).
Proof.
  rewrite solve_unfold. unfold returned. cbn [outcome].
  destruct (outcome (solve_run e)) as [err|r]; [discriminate|].
  now intros [= ->].
Qed.

Lemma solve_returned_inv e s :
  returned (solve e) = Some s ->
  exists ex x, outcome (solve_run e) = inr (ex, x) /\ s = BN.toString x.
Proof.
  rewrite solve_unfold. unfold returned. cbn [outcome].
  destruct (outcome (solve_run e)) as [err|[ex x]]; [discriminate|].
  intros [= <-]. now exists ex, x.
Qed.

Lemma solve_thrown e err :
  thrown (solve_run e) = Some err -> thrown (solve e) = Some err.
Proof.
  rewrite solve_unfold. unfold thrown. cbn [outcome].
  now destruct (outcome (solve_run e)).
Qed.

(** ** Runs that stay within a region *)

Section Invariant.

Variable e : Equation.
Variable Inv : Z -> Prop.

Hypothesis Inv_step :
  forall x, Inv x -> spec_derivative e x <> 0 /\ Inv (spec_next e x).

(** If the region fits 53 bits the loop does return. *)
Lemma solve_loop_returns fuel :
  (forall x, Inv x -> Z.abs x < 2 ^ 53) ->
  forall i x, Inv x ->
    exists ex y, outcome (solve_loop e fuel i x x) = inr (ex, y).
Proof.
  intros Hfit. induction fuel as [|fuel IH]; intros i x Hx.
  - now exists Exhausted, x.
  - rewrite solve_loop_step. destruct (Inv_step x Hx) as [Hd Hnext].
    destruct (Z.eqb_spec (spec_derivative e x) 0); [contradiction|].
    cbv zeta. unfold fits53.
    destruct (Z.ltb_spec (Z.abs (spec_next e x)) (2 ^ 53)) as [_|Hbig];
      [|specialize (Hfit _ Hnext); lia].
    destruct (Z.ltb_spec (Z.abs x) (2 ^ 53)) as [_|Hbig];
      [|specialize (Hfit _ Hx); lia].
    cbn [andb]. destruct (spec_next e x =? x).
    + now exists Break, (spec_next e x).
    + apply IH. exact Hnext.
Qed.

End Invariant.

(** ** Runs that leave the 53 bits *)

Lemma solve_loop_overflow e fuel :
  forall i x n,
    fits53 x = true ->
    (n < fuel)%nat ->
    (forall k, (k <= n)%nat -> spec_derivative e (iterate_from e x k) <> 0) ->
    fits53 (iterate_from e x (S n)) = false ->
    solve_loop e fuel i x x =
      mkM (console (solve_loop e fuel i x x)) (inl BN.number_too_large).
Proof.
  induction fuel as [|fuel IH]; intros i x n Hx Hn Hd Hbig; [lia|].
  rewrite solve_loop_step.
  pose proof (Hd O ltac:(lia)) as Hd0. cbn in Hd0.
  destruct (Z.eqb_spec (spec_derivative e x) 0); [contradiction|].
  cbv zeta. rewrite Hx, andb_true_r.
  destruct (fits53 (spec_next e x)) eqn:Hfit; [|reflexivity].
  destruct (Z.eqb_spec (spec_next e x) x) as [Heq|Hne].
  - rewrite (iterate_from_fixed e x (S n) Heq) in Hbig. congruence.
  - destruct n as [|n]; [cbn in Hbig; congruence|].
    unfold prepend.
    rewrite (IH (S i) (spec_next e x) n Hfit ltac:(lia)) at 2; cycle 1.
    + intros k Hk. rewrite <- iterate_from_S. apply Hd. lia.
    + rewrite <- iterate_from_S. exact Hbig.
    + reflexivity.
Qed.

(** ** The Equation Model *)

(** The constructor never throws and writes nothing: its only division is
    by the literal 10000. *)
Lemma Equation_new_eq offer_user offer_pool ask_user ask_pool :
  Equation_new offer_user offer_pool ask_user ask_pool =
    ret {| a := ask_pool + ask_user;
           b := offer_pool * (ask_pool + ask_user) * 2
                - (ask_pool * (offer_pool + offer_user) * 30) ÷ 10000;
           c := offer_pool * (offer_pool * ask_user - offer_user * ask_pool) |}.
Proof. reflexivity. Qed.

(** C1: for non-negative offerUser, offerPool, askUser, askPool the
    constructor builds exactly a = askPool + askUser,
    b = 2*offerPool*a - (askPool*(offerPool+offerUser)*30) div 10000 and
    c = offerPool*(offerPool*askUser - offerUser*askPool) over the
    unbounded integers; the division is the truncated one, which on these
    non-negative operands is also the floor. *)
Theorem C1_equation_coefficients (offerUser offerPool askUser askPool : Z) :
  0 <= offerUser -> 0 <= offerPool -> 0 <= askUser -> 0 <= askPool ->
  exists e,
    Equation_new offerUser offerPool askUser askPool = ret e /\
    a e = askPool + askUser /\
    b e = 2 * offerPool * a e
          - (askPool * (offerPool + offerUser) * 30) ÷ 10000 /\
    (askPool * (offerPool + offerUser) * 30) ÷ 10000
      = (askPool * (offerPool + offerUser) * 30) / 10000 /\
    c e = offerPool * (offerPool * askUser - offerUser * askPool).
Proof.
  intros Hou Hop Hau Hap. eexists. split; [apply Equation_new_eq|].
  cbn [a b c]. repeat split.
  - ring.
  - apply Z.quot_div_nonneg; [|lia].
    repeat apply Z.mul_nonneg_nonneg; lia.
Qed.

Lemma C1_equation_coefficients_witness :
  exists e,
    Equation_new 10000 1000000 0 1000000 = ret e /\
    a e = 1000000 + 0 /\
    b e = 2 * 1000000 * a e - (1000000 * (1000000 + 10000) * 30) ÷ 10000 /\
    (1000000 * (1000000 + 10000) * 30) ÷ 10000
      = (1000000 * (1000000 + 10000) * 30) / 10000 /\
    c e = 1000000 * (1000000 * 0 - 10000 * 1000000).
Proof. apply (C1_equation_coefficients 10000 1000000 0 1000000); lia. Defined.

(** ** The Swap Simulator *)

Lemma computeXykSwapOutput_nonzero offerAmount offerDepth askDepth :
  offerDepth + offerAmount <> 0 ->
  returned (computeXykSwapOutput offerAmount offerDepth askDepth) =
    Some (BN.toString (returnAmountAfterFee offerAmount offerDepth askDepth)).
Proof.
  intros Hnz. unfold computeXykSwapOutput, returnAmountAfterFee.
  rewrite bind_log. unfold BN.add, BN.mul, BN.sub.
  rewrite (BNFacts.div_nonzero _ _ Hnz), bind_ret_l.
  rewrite BNFacts.div_nonzero by (unfold DECIMAL_FRACTIONAL; lia).
  rewrite bind_ret_l, bind_log.
  rewrite BNFacts.div_nonzero by lia.
  rewrite bind_ret_l, bind_log.
  reflexivity.
Qed.

Lemma computeXykSwapOutput_zero offerAmount offerDepth askDepth :
  offerDepth + offerAmount = 0 ->
  computeXykSwapOutput offerAmount offerDepth askDepth =
    mkM [CpLine (offerDepth * askDepth)] (inl BN.assertion_failed).
Proof.
  intros Hz. unfold computeXykSwapOutput.
  rewrite bind_log. unfold BN.add. rewrite Hz, BNFacts.div_zero.
  reflexivity.
Qed.

(** C4: for a non-negative offerAmount and positive reserves the simulator
    returns returnAmount - commission, with cp = offerDepth*askDepth,
    offerDepthAfter = offerDepth + offerAmount,
    askDepthAfter = (cp*10^18) div offerDepthAfter,
    returnAmount = (askDepth*10^18 - askDepthAfter) div 10^18 and
    commission = (returnAmount*30) div 10000, every division truncated. *)
Theorem C4_swap_output (offerAmount offerDepth askDepth : Z) :
  0 <= offerAmount -> 0 < offerDepth -> 0 < askDepth ->
  let cp := offerDepth * askDepth in
  let offerDepthAfter := offerDepth + offerAmount in
  let askDepthAfter := (cp * 10 ^ 18) ÷ offerDepthAfter in
  let returnAmount := (askDepth * 10 ^ 18 - askDepthAfter) ÷ 10 ^ 18 in
  let commission := (returnAmount * 30) ÷ 10000 in
  returned (computeXykSwapOutput offerAmount offerDepth askDepth) =
    Some (BN.toString (returnAmount - commission)).
Proof.
  intros Hoa Hod Had. cbv zeta.
  rewrite computeXykSwapOutput_nonzero by lia. reflexivity.
Qed.

Lemma C4_swap_output_witness :
  returned (computeXykSwapOutput 1000 1000000 1000000) =
    Some (BN.toString
            ((1000000 * 10 ^ 18
              - (1000000 * 1000000 * 10 ^ 18) ÷ (1000000 + 1000)) ÷ 10 ^ 18
             - ((1000000 * 10 ^ 18
                 - (1000000 * 1000000 * 10 ^ 18) ÷ (1000000 + 1000))
                ÷ 10 ^ 18 * 30) ÷ 10000)).
Proof. apply (C4_swap_output 1000 1000000 1000000); lia. Defined.

(** The commission leaves the amount monotone. *)
Lemma after_fee_mono r1 r2 :
  r1 <= r2 -> r1 - (r1 * 30) ÷ 10000 <= r2 - (r2 * 30) ÷ 10000.
Proof.
  intros Hle.
  pose proof (Z.quot_rem' (r1 * 30) 10000) as E1.
  pose proof (Z.quot_rem' (r2 * 30) 10000) as E2.
  pose proof (Z.rem_bound_abs (r1 * 30) 10000 ltac:(lia)) as B1.
  pose proof (Z.rem_bound_abs (r2 * 30) 10000 ltac:(lia)) as B2.
  assert (S1 : (0 <= r1 -> 0 <= Z.rem (r1 * 30) 10000) /\
               (r1 <= 0 -> Z.rem (r1 * 30) 10000 <= 0))
    by (split; intros; [apply Z.rem_nonneg | apply Z.rem_nonpos]; lia).
  assert (S2 : (0 <= r2 -> 0 <= Z.rem (r2 * 30) 10000) /\
               (r2 <= 0 -> Z.rem (r2 * 30) 10000 <= 0))
    by (split; intros; [apply Z.rem_nonneg | apply Z.rem_nonpos]; lia).
  lia.
Qed.

Lemma returnAmountAfterFee_mono offerDepth askDepth offerAmount1 offerAmount2 :
  0 < offerDepth -> 0 < askDepth ->
  0 <= offerAmount1 <= offerAmount2 ->
  returnAmountAfterFee offerAmount1 offerDepth askDepth
    <= returnAmountAfterFee offerAmount2 offerDepth askDepth.
Proof.
  intros Hod Had [H1 H12]. unfold returnAmountAfterFee. cbv zeta.
  apply after_fee_mono.
  apply Z.quot_le_mono; [lia|].
  assert (Hcp : 0 <= offerDepth * askDepth * 10 ^ 18) by nia.
  rewrite !Z.quot_div_nonneg by lia.
  pose proof (Z.div_le_compat_l (offerDepth * askDepth * 10 ^ 18)
                (offerDepth + offerAmount1) (offerDepth + offerAmount2)
                Hcp ltac:(lia)).
  lia.
Qed.

(** C8: for fixed positive reserves the amount the simulator returns does
    not decrease when offerAmount grows: for 0 <= offerAmount1 <=
    offerAmount2 both calls return, and the amount the first returns is at
    most the amount the second returns. *)
Theorem C8_swap_monotone
    (offerDepth askDepth offerAmount1 offerAmount2 : Z) :
  0 < offerDepth -> 0 < askDepth ->
  0 <= offerAmount1 <= offerAmount2 ->
  (exists r1 r2,
     returned (computeXykSwapOutput offerAmount1 offerDepth askDepth)
       = Some (BN.toString r1) /\
     returned (computeXykSwapOutput offerAmount2 offerDepth askDepth)
       = Some (BN.toString r2)) /\
  (forall r1 r2,
     returned (computeXykSwapOutput offerAmount1 offerDepth askDepth)
       = Some (BN.toString r1) ->
     returned (computeXykSwapOutput offerAmount2 offerDepth askDepth)
       = Some (BN.toString r2) ->
     r1 <= r2).
Proof.
  intros Hod Had H12.
  pose proof (computeXykSwapOutput_nonzero offerAmount1 offerDepth askDepth
                ltac:(lia)) as R1.
  pose proof (computeXykSwapOutput_nonzero offerAmount2 offerDepth askDepth
                ltac:(lia)) as R2.
  split.
  - eexists _, _. split; eassumption.
  - intros r1 r2. rewrite R1, R2. intros [= E1] [= E2].
    apply BNFacts.toString_inj in E1, E2. subst r1 r2.
    now apply returnAmountAfterFee_mono.
Qed.

Lemma C8_swap_monotone_witness :
  (exists r1 r2,
     returned (computeXykSwapOutput 1000 1000000 1000000)
       = Some (BN.toString r1) /\
     returned (computeXykSwapOutput 2000 1000000 1000000)
       = Some (BN.toString r2)) /\
  (forall r1 r2,
     returned (computeXykSwapOutput 1000 1000000 1000000)
       = Some (BN.toString r1) ->
     returned (computeXykSwapOutput 2000 1000000 1000000)
       = Some (BN.toString r2) ->
     r1 <= r2).
Proof. apply (C8_swap_monotone 1000000 1000000 1000 2000); lia. Defined.

(** ** Zero reserves *)

Lemma returnAmountAfterFee_no_offer_depth offerAmount askDepth :
  offerAmount <> 0 ->
  returnAmountAfterFee offerAmount 0 askDepth
    = askDepth - (askDepth * 30) ÷ 10000.
Proof.
  intros Hoa. unfold returnAmountAfterFee. cbv zeta.
  rewrite !Z.mul_0_l, Z.add_0_l, Z.quot_0_l, Z.sub_0_r by exact Hoa.
  rewrite Z.quot_mul by lia. reflexivity.
Qed.

Lemma returnAmountAfterFee_no_ask_depth offerAmount offerDepth :
  returnAmountAfterFee offerAmount offerDepth 0 = 0.
Proof.
  unfold returnAmountAfterFee. cbv zeta.
  rewrite Z.mul_0_r, !Z.mul_0_l.
  change (0 ÷ (offerDepth + offerAmount)) with 0. reflexivity.
Qed.

(** C5, as the specification states it, fails: with offerPool = 0 the
    constructor returns coefficients and the simulator returns an amount;
    neither throws. *)
Lemma C5_zero_reserve_counterexample :
  Equation_new 5 0 0 7 = ret {| a := 7; b := 0; c := 0 |} /\
  thrown (Equation_new 5 0 0 7) = None /\
  computeXykSwapOutput 5 0 7 =
    mkM [CpLine 0; ReturnAmountLine 7; CommissionLine 0] (inr "7"%string) /\
  thrown (computeXykSwapOutput 5 0 7) = None.
Proof. repeat split. Qed.

(** C5, amended: a reserve equal to 0 is not rejected.  The constructor
    returns the coefficients of its formulas and never throws.  The
    simulator goes on to its arithmetic: it returns returnAmount -
    commission whenever offerDepth + offerAmount is not 0 (that is
    askDepth - (askDepth*30) div 10000 when offerDepth = 0, and 0 when
    askDepth = 0), and when offerDepth + offerAmount = 0 it fails in the
    first division, with the plain assertion error of bn.js, after cp has
    been computed and written to the console. *)
Theorem C5_zero_reserve_not_rejected
    (offerUser askUser offerAmount offerPool askPool : Z) :
  offerPool = 0 \/ askPool = 0 ->
  Equation_new offerUser offerPool askUser askPool =
    ret {| a := askPool + askUser;
           b := offerPool * (askPool + askUser) * 2
                - (askPool * (offerPool + offerUser) * 30) ÷ 10000;
           c := offerPool * (offerPool * askUser - offerUser * askPool) |} /\
  (offerPool + offerAmount <> 0 ->
     returned (computeXykSwapOutput offerAmount offerPool askPool) =
       Some (BN.toString (returnAmountAfterFee offerAmount offerPool askPool))
     /\ (offerPool = 0 ->
         returnAmountAfterFee offerAmount offerPool askPool
           = askPool - (askPool * 30) ÷ 10000)
     /\ (askPool = 0 ->
         returnAmountAfterFee offerAmount offerPool askPool = 0)) /\
  (offerPool + offerAmount = 0 ->
     computeXykSwapOutput offerAmount offerPool askPool =
       mkM [CpLine (offerPool * askPool)] (inl BN.assertion_failed)).
Proof.
  intros _. split; [apply Equation_new_eq|]. split.
  - intros Hnz. split; [now apply computeXykSwapOutput_nonzero|]. split.
    + intros ->. apply returnAmountAfterFee_no_offer_depth. lia.
    + intros ->. apply returnAmountAfterFee_no_ask_depth.
  - apply computeXykSwapOutput_zero.
Qed.

Lemma C5_zero_reserve_not_rejected_witness :
  Equation_new 5 0 0 7 =
    ret {| a := 7 + 0;
           b := 0 * (7 + 0) * 2 - (7 * (0 + 5) * 30) ÷ 10000;
           c := 0 * (0 * 0 - 5 * 7) |} /\
  (0 + 5 <> 0 ->
     returned (computeXykSwapOutput 5 0 7) =
       Some (BN.toString (returnAmountAfterFee 5 0 7))
     /\ (0 = 0 -> returnAmountAfterFee 5 0 7 = 7 - (7 * 30) ÷ 10000)
     /\ (7 = 0 -> returnAmountAfterFee 5 0 7 = 0)) /\
  (0 + 5 = 0 ->
     computeXykSwapOutput 5 0 7 =
       mkM [CpLine (0 * 7)] (inl BN.assertion_failed)).
Proof. apply (C5_zero_reserve_not_rejected 5 0 5 0 7). left. reflexivity. Defined.

(** ** Solving with nothing deposited *)

(** With positive reserves the fee term stays below [2*offerPool*askPool]. *)
Lemma fee_term_small p : 0 < p -> (p * 30) ÷ 10000 < p.
Proof.
  intros Hp. rewrite Z.quot_div_nonneg by lia.
  apply Z.div_lt_upper_bound; lia.
Qed.

(** A first turn that finds the value 0 at x = 0 leaves the loop at once. *)
Lemma solve_run_stops_at_zero e :
  c e = 0 -> b e <> 0 ->
  solve_run e = mkM [IterationLine 1 0 0 (b e)] (inr (Break, 0)).
Proof.
  intros Hc Hb. unfold solve_run, MAX_ITERATIONS.
  rewrite solve_loop_step.
  assert (Hd : spec_derivative e 0 = b e)
    by (unfold spec_derivative; lia).
  assert (Hv : spec_value e 0 = 0)
    by (unfold spec_value; rewrite Hc; lia).
  assert (Hn : spec_next e 0 = 0)
    by (unfold spec_next; rewrite Hv, Z.quot_0_l by (rewrite Hd; exact Hb);
        reflexivity).
  rewrite Hd. destruct (Z.eqb_spec (b e) 0); [contradiction|].
  cbv zeta. rewrite Hn, Hv.
  reflexivity.
Qed.

(** C7: for positive offerPool and askPool and offerUser = askUser = 0,
    solving the equation built from them returns the root 0. *)
Theorem C7_no_deposit_root_zero (offerPool askPool : Z) :
  0 < offerPool -> 0 < askPool ->
  exists e,
    Equation_new 0 offerPool 0 askPool = ret e /\
    returned (solve e) = Some (BN.toString 0) /\
    returned (solve_run e) = Some (Break, 0).
Proof.
  intros Hop Hap. eexists. split; [apply Equation_new_eq|].
  match goal with |- context [solve ?e'] => set (e := e') end.
  assert (Hb : b e <> 0).
  { cbn [e b]. rewrite !Z.add_0_r.
    pose proof (fee_term_small (askPool * offerPool) ltac:(nia)). nia. }
  assert (Hc : c e = 0) by (cbn [e c]; ring).
  rewrite solve_unfold, (solve_run_stops_at_zero e Hc Hb).
  split; reflexivity.
Qed.

Lemma C7_no_deposit_root_zero_witness :
  exists e,
    Equation_new 0 1000000 0 2000000 = ret e /\
    returned (solve e) = Some (BN.toString 0) /\
    returned (solve_run e) = Some (Break, 0).
Proof. apply (C7_no_deposit_root_zero 1000000 2000000); lia. Defined.

(** ** Solving a single-asset deposit *)

(** Bounds of the truncated quotient by a positive divisor. *)
Lemma quot_nonneg_bounds f d :
  0 < d -> 0 <= f -> 0 <= f ÷ d /\ d * (f ÷ d) <= f < d * (f ÷ d + 1).
Proof.
  intros Hd Hf.
  pose proof (Z.quot_rem' f d) as E.
  pose proof (Z.rem_bound_pos f d Hf Hd) as B.
  pose proof (Z.quot_pos f d Hf Hd). lia.
Qed.

Lemma quot_neg_bounds f d :
  0 < d -> f < 0 -> f ÷ d <= 0 /\ d * (f ÷ d - 1) < f <= d * (f ÷ d).
Proof.
  intros Hd Hf.
  pose proof (Z.quot_rem' f d) as E.
  pose proof (Z.rem_bound_abs f d ltac:(lia)) as B.
  pose proof (Z.rem_nonpos f d ltac:(lia) ltac:(lia)) as S.
  assert (f ÷ d <= 0).
  { replace f with (- - f) by lia. rewrite Z.quot_opp_l by lia.
    pose proof (Z.quot_pos (- f) d ltac:(lia) Hd). lia. }
  lia.
Qed.

(** The equation of a single-asset deposit with a positive [b]: [P] is
    offerPool, [U] is offerUser, [a e] is askPool and [q] is the fee term
    [(askPool * (offerPool + offerUser) * 30) ÷ 10000]. *)
Section SingleAsset.

Variable e : Equation.
Variables P U q : Z.

Hypothesis a_pos : 0 < a e.
Hypothesis b_pos : 0 < b e.
Hypothesis c_eq : c e = - (a e * P * U).
Hypothesis P_pos : 0 < P.
Hypothesis U_pos : 0 < U.
Hypothesis b_eq : b e = 2 * P * a e - q.
Hypothesis q_lo : 10000 * q <= 30 * (a e * (P + U)).
Hypothesis q_hi : 30 * (a e * (P + U)) < 10000 * (q + 1).

Lemma value_eq x : spec_value e x = a e * x * x + b e * x + c e.
Proof. unfold spec_value. ring. Qed.

Lemma derivative_eq x : spec_derivative e x = 2 * a e * x + b e.
Proof. reflexivity. Qed.

Lemma derivative_pos x : 0 <= x -> 0 < spec_derivative e x.
Proof. intros Hx. rewrite derivative_eq. nia. Qed.

(** From the right of the root the step goes left, not below 0, and
    lands on the right of the root again. *)
Lemma step_right x :
  0 <= x -> 0 <= spec_value e x ->
  0 <= spec_next e x <= x /\ 0 <= spec_value e (spec_next e x).
Proof.
  intros Hx Hv. unfold spec_next.
  pose proof (derivative_pos x Hx) as Hd.
  destruct (quot_nonneg_bounds _ _ Hd Hv) as (Hq0 & Hlo & Hhi).
  revert Hq0 Hlo Hhi. generalize (spec_value e x ÷ spec_derivative e x).
  intros k Hq0 Hlo Hhi.
  rewrite value_eq, derivative_eq in *.
  assert (Hk : k <= x) by nia.
  split; [lia|].
  rewrite ?value_eq.
  assert (0 <= a e * k * k) by nia. nia.
Qed.

(** From the left of the root the step goes right, and lands where the
    next step is too short to move. *)
Lemma step_left x :
  0 <= x -> spec_value e x < 0 ->
  x <= spec_next e x /\
  - spec_derivative e (spec_next e x) < spec_value e (spec_next e x).
Proof.
  intros Hx Hv. unfold spec_next.
  pose proof (derivative_pos x Hx) as Hd.
  destruct (quot_neg_bounds _ _ Hd Hv) as (Hq0 & Hlo & Hhi).
  revert Hq0 Hlo Hhi. generalize (spec_value e x ÷ spec_derivative e x).
  intros k Hq0 Hlo Hhi.
  rewrite value_eq, derivative_eq in *.
  split; [lia|].
  rewrite ?value_eq, ?derivative_eq.
  assert (0 <= a e * k * k) by nia. nia.
Qed.

(** A value smaller in magnitude than the derivative does not move [x]. *)
Lemma step_short x :
  0 <= x ->
  - spec_derivative e x < spec_value e x < spec_derivative e x ->
  spec_next e x = x.
Proof.
  intros Hx [Hlo Hhi]. unfold spec_next.
  pose proof (derivative_pos x Hx) as Hd.
  assert (spec_value e x ÷ spec_derivative e x = 0); [|lia].
  destruct (Z.le_gt_cases 0 (spec_value e x)) as [Hv|Hv].
  - apply Z.quot_small. lia.
  - destruct (quot_neg_bounds _ _ Hd Hv) as (Hq0 & Hl & Hh). nia.
Qed.

Lemma step_fixed x :
  0 <= x -> spec_next e x = x ->
  - spec_derivative e x < spec_value e x < spec_derivative e x.
Proof.
  intros Hx Hfix. unfold spec_next in Hfix.
  pose proof (derivative_pos x Hx) as Hd.
  assert (Hq : spec_value e x ÷ spec_derivative e x = 0) by lia.
  destruct (Z.le_gt_cases 0 (spec_value e x)) as [Hv|Hv].
  - destruct (quot_nonneg_bounds _ _ Hd Hv) as (_ & _ & Hh).
    rewrite Hq in Hh. lia.
  - destruct (quot_neg_bounds _ _ Hd Hv) as (_ & Hl & _).
    rewrite Hq in Hl. lia.
Qed.

(** Beyond [U] the value is at least the derivative. *)
Lemma value_beyond_U x :
  U < x -> spec_derivative e x <= spec_value e x.
Proof.
  intros Hx. rewrite value_eq, derivative_eq, c_eq, b_eq.
  assert (Hq : 10000 * (q * U) <= 30 * (a e * (P + U) * U)) by nia.
  assert (Ht : exists t, 0 <= t /\ x = U + 1 + t) by (exists (x - U - 1); lia).
  destruct Ht as (t & Ht & ->).
  nia.
Qed.

(** So an [x] the step does not move is at most [U]. *)
Lemma fixed_le_U x : 0 <= x -> spec_next e x = x -> x <= U.
Proof.
  intros Hx Hfix. destruct (step_fixed x Hx Hfix) as [_ Hhi].
  destruct (Z.le_gt_cases x U) as [Hle|Hgt]; [exact Hle|].
  pose proof (value_beyond_U x Hgt). lia.
Qed.

(** Beyond [U] a step at least halves the distance to [P + 1]. *)
Lemma step_halves x :
  U < x -> 2 * (spec_next e x - (P + 1)) <= x - (P + 1).
Proof.
  intros Hx. unfold spec_next.
  pose proof (derivative_pos x ltac:(lia)) as Hd.
  pose proof (value_beyond_U x Hx) as Hv.
  assert (Hv0 : 0 <= spec_value e x) by lia.
  destruct (quot_nonneg_bounds _ _ Hd Hv0) as (Hq0 & Hlo & Hhi).
  revert Hq0 Hlo Hhi. generalize (spec_value e x ÷ spec_derivative e x).
  intros k Hq0 Hlo Hhi.
  rewrite value_eq, derivative_eq, c_eq in *.
  destruct (Z.le_gt_cases (x - k) 1) as [Hsmall|Hbig]; [lia|].
  assert (H1 : (2 * a e * x + b e) * (x - k - 1)
               < a e * x * x + a e * P * U) by nia.
  assert (H2 : a e * P * U < a e * P * x) by nia.
  assert (H3 : 2 * a e * x * (x - k - 1)
               <= (2 * a e * x + b e) * (x - k - 1)) by nia.
  assert (H4 : (a e * x) * (2 * (x - k - 1)) < (a e * x) * (x + P)) by nia.
  apply Z.mul_lt_mono_pos_l in H4; [lia | nia].
Qed.

(** The first iterate. *)
Lemma first_iterate :
  iterate e 1 = (a e * P * U) ÷ b e /\
  0 <= iterate e 1 /\
  b e * iterate e 1 <= a e * P * U.
Proof.
  assert (Hx1 : iterate e 1 = (a e * P * U) ÷ b e).
  { change (iterate e 1) with (spec_next e 0). unfold spec_next.
    rewrite value_eq, derivative_eq, c_eq.
    replace (a e * 0 * 0 + b e * 0 + - (a e * P * U))
      with (- (a e * P * U)) by ring.
    replace (2 * a e * 0 + b e) with (b e) by ring.
    rewrite Z.quot_opp_l by lia. lia. }
  rewrite Hx1.
  destruct (quot_nonneg_bounds (a e * P * U) (b e) b_pos ltac:(nia))
    as (Hq0 & Hlo & _).
  auto.
Qed.

(** The fee leaves at least a thousandth of [a] in [b]. *)
Lemma b_lower : a e <= 1000 * b e.
Proof.
  assert (0 < a e * (1997 * P - 3 * U)) by nia.
  assert (1 <= 1997 * P - 3 * U) by nia.
  nia.
Qed.

Lemma first_iterate_le : iterate e 1 <= 1000 * P * U.
Proof.
  destruct first_iterate as (_ & H0 & Hb). pose proof b_lower as Hl.
  assert (b e * iterate e 1 <= b e * (1000 * P * U)) by nia.
  apply Z.mul_le_mono_pos_l in H; [exact H | exact b_pos].
Qed.

(** A first iterate beyond [U] means a deposit beyond 332 times the
    reserve. *)
Lemma first_iterate_beyond_U : U < iterate e 1 -> 997 * P < 3 * U.
Proof.
  intros Hx. destruct first_iterate as (_ & H0 & Hb).
  assert (b e * U < a e * P * U) by nia.
  assert (b e < a e * P) by nia.
  nia.
Qed.

(** *** The sequence of iterates *)

Lemma iterate_nonneg n : 0 <= iterate e n.
Proof.
  induction n as [|n IH]; [reflexivity|].
  rewrite iterate_S.
  destruct (Z.le_gt_cases 0 (spec_value e (iterate e n))) as [Hv|Hv].
  - apply (step_right _ IH Hv).
  - pose proof (step_left _ IH Hv). lia.
Qed.

(** From the first iterate on, an iterate is right of the root or does not
    move any more. *)
Lemma iterate_settled n :
  - spec_derivative e (iterate e (S n)) < spec_value e (iterate e (S n)).
Proof.
  induction n as [|n IH].
  - apply (step_left 0); [lia|].
    rewrite value_eq, c_eq. nia.
  - pose proof (iterate_nonneg (S n)) as Hx.
    rewrite (iterate_S e (S n)).
    destruct (Z.le_gt_cases 0 (spec_value e (iterate e (S n)))) as [Hv|Hv].
    + destruct (step_right _ Hx Hv) as [[Hx' _] Hv'].
      pose proof (derivative_pos _ Hx'). lia.
    + rewrite (step_short _ Hx); [exact IH|].
      pose proof (derivative_pos _ Hx). lia.
Qed.

Lemma iterate_step_down n : iterate e (S (S n)) <= iterate e (S n).
Proof.
  pose proof (iterate_nonneg (S n)) as Hx.
  pose proof (iterate_settled n) as Hs.
  rewrite (iterate_S e (S n)).
  destruct (Z.le_gt_cases 0 (spec_value e (iterate e (S n)))) as [Hv|Hv].
  - apply (step_right _ Hx Hv).
  - rewrite (step_short _ Hx); [lia|].
    pose proof (derivative_pos _ Hx). lia.
Qed.

Lemma iterate_down m n :
  (m <= n)%nat -> iterate e (S n) <= iterate e (S m).
Proof.
  induction 1 as [|n Hle IH]; [lia|].
  pose proof (iterate_step_down n). lia.
Qed.

(** While the iterates are beyond [U], the distance to [P + 1] halves at
    every step. *)
Lemma iterate_halving k :
  U < iterate e (S k) ->
  2 ^ Z.of_nat k * (iterate e (S k) - (P + 1)) <= iterate e 1 - (P + 1).
Proof.
  induction k as [|k IH]; intros Hk.
  - change (2 ^ Z.of_nat 0) with 1. lia.
  - pose proof (iterate_step_down k) as Hdown.
    specialize (IH ltac:(lia)).
    pose proof (step_halves (iterate e (S k)) ltac:(lia)) as Hh.
    rewrite <- iterate_S in Hh.
    rewrite Nat2Z.inj_succ, Z.pow_succ_r by lia.
    assert (0 < 2 ^ Z.of_nat k) by (apply Z.pow_pos_nonneg; lia).
    nia.
Qed.

(** After 32 turns without leaving the 53 bits the iterate is at most [U]. *)
Lemma iterate_32_le_U : iterate e 1 < 2 ^ 53 -> iterate e 32 <= U.
Proof.
  intros Hfit.
  destruct (Z.le_gt_cases (iterate e 32) U) as [Hle|Hgt]; [exact Hle|].
  exfalso.
  pose proof (iterate_halving 31 Hgt) as Hh.
  pose proof (iterate_down 0 31 ltac:(lia)) as Hdown.
  pose proof (first_iterate_beyond_U ltac:(lia)) as Hbig.
  pose proof first_iterate_le as Hx1.
  change (2 ^ Z.of_nat 31) with 2147483648 in Hh.
  change (2 ^ 53) with 9007199254740992 in Hfit.
  assert (H1 : 2147483648 * (U - P) < iterate e 1) by lia.
  assert (H2 : 2147483648 * 994 * U < 997000 * P * U) by lia.
  assert (H3 : 2147483648 * 994 < 997000 * P) by nia.
  lia.
Qed.

(** *** The run of [solve] *)

Lemma reached_step x :
  reached e x -> spec_derivative e x <> 0 /\ reached e (spec_next e x).
Proof.
  intros [->|[[Hx0 Hx1] Hs]].
  - pose proof (derivative_pos 0 ltac:(lia)). split; [lia|].
    right. pose proof (iterate_nonneg 1). pose proof (iterate_settled 0).
    change (spec_next e 0) with (iterate e 1). split; [lia | assumption].
  - pose proof (derivative_pos x Hx0) as Hd. split; [lia|]. right.
    destruct (Z.le_gt_cases 0 (spec_value e x)) as [Hv|Hv].
    + destruct (step_right x Hx0 Hv) as [[Hn0 Hnx] Hv'].
      pose proof (derivative_pos _ Hn0). lia.
    + rewrite (step_short x Hx0) by lia. lia.
Qed.

Lemma reached_bounds x : reached e x -> 0 <= x <= iterate e 1.
Proof.
  pose proof (iterate_nonneg 1). intros [->|[Hx _]]; lia.
Qed.

(** Every [x] the loop returns lies in [0, U]. *)
Lemma solve_run_in_range ex x :
  outcome (solve_run e) = inr (ex, x) -> 0 <= x <= U.
Proof.
  intros Hrun. pose proof (solve_run_facts e) as F.
  pose proof (lf_result _ _ _ _ _ F ex x Hrun) as Hx.
  fold (iterate e (List.length (console (solve_run e)))) in Hx.
  split; [rewrite Hx; apply iterate_nonneg|].
  destruct ex.
  - destruct (lf_break _ _ _ _ _ F x Hrun) as (n & Hn & Hst).
    fold (iterate e (S n)) in Hst. fold (iterate e n) in Hst.
    rewrite Hn in Hx. rewrite Hx, Hst.
    apply fixed_le_U; [apply iterate_nonneg|].
    now rewrite <- iterate_S.
  - destruct (lf_exhausted _ _ _ _ _ F x Hrun) as [Hn _].
    rewrite Hn in Hx. rewrite Hx. apply iterate_32_le_U.
    pose proof (lf_fits _ _ _ _ _ F _ 0%nat Hrun
                  ltac:(rewrite Hn; unfold MAX_ITERATIONS; lia)) as Hfit.
    fold (iterate e 1) in Hfit. unfold fits53 in Hfit.
    apply Z.ltb_lt in Hfit. lia.
Qed.

(** The loop returns when the first iterate fits 53 bits. *)
Lemma solve_run_returns :
  iterate e 1 < 2 ^ 53 -> exists ex x, outcome (solve_run e) = inr (ex, x).
Proof.
  intros Hfit.
  apply (solve_loop_returns e (reached e) reached_step).
  - intros x Hx. pose proof (reached_bounds x Hx). lia.
  - now left.
Qed.

End SingleAsset.


(** C6, as the specification states it, fails: with reserves 1 and 1 and
    offerUser = 10000 the fee term exceeds [2*offerPool*askPool], b is
    negative, and the iteration settles on the negative root. *)
Lemma C6_single_asset_counterexample :
  Equation_new 10000 1 0 1 = ret {| a := 1; b := -28; c := -10000 |} /\
  returned (solve {| a := 1; b := -28; c := -10000 |})
    = Some (BN.toString (-87)) /\
  ~ (0 <= -87 <= 10000).
Proof. repeat split. lia. Qed.

(** C6, amended: for positive reserves and a single-asset deposit
    (askUser = 0, offerUser > 0) whose fee term
    (askPool*(offerPool+offerUser)*30) div 10000 is below
    2*offerPool*askPool, that is whose coefficient b is positive, every x
    that solving returns satisfies 0 <= x <= offerUser; and solving does
    return when the first iterate, (askPool*offerPool*offerUser) div b,
    is below 2^53. *)
Theorem C6_single_asset_bounds (offerUser offerPool askPool : Z) :
  0 < offerPool -> 0 < askPool -> 0 < offerUser ->
  (askPool * (offerPool + offerUser) * 30) ÷ 10000
    < 2 * offerPool * askPool ->
  exists e,
    Equation_new offerUser offerPool 0 askPool = ret e /\
    0 < b e /\
    (forall x, returned (solve e) = Some (BN.toString x) ->
               0 <= x <= offerUser) /\
    ((askPool * offerPool * offerUser) ÷ b e < 2 ^ 53 ->
       exists x, returned (solve e) = Some (BN.toString x)).
Proof.
  intros Hop Hap Hou Hfee. eexists. split; [apply Equation_new_eq|].
  match goal with |- context [solve ?e'] => set (e := e') end.
  set (q := (askPool * (offerPool + offerUser) * 30) ÷ 10000) in *.
  assert (Ha : a e = askPool) by (cbn [e a]; lia).
  assert (Ha0 : 0 < a e) by lia.
  assert (Hb : b e = 2 * offerPool * a e - q) by (cbn [e b a]; lia).
  assert (Hb0 : 0 < b e) by (rewrite Hb, Ha; lia).
  assert (Hc : c e = - (a e * offerPool * offerUser))
    by (cbn [e c a]; ring).
  destruct (quot_nonneg_bounds (askPool * (offerPool + offerUser) * 30)
              10000 ltac:(lia) ltac:(nia)) as (_ & Hlo & Hhi).
  fold q in Hlo, Hhi. rewrite <- Ha in Hlo, Hhi.
  assert (Hqlo : 10000 * q <= 30 * (a e * (offerPool + offerUser))) by lia.
  assert (Hqhi : 30 * (a e * (offerPool + offerUser)) < 10000 * (q + 1))
    by lia.
  split; [exact Hb0|]. split.
  - intros x Hret.
    destruct (solve_returned_inv e _ Hret) as (ex & y & Hrun & Hxy).
    apply BNFacts.toString_inj in Hxy. subst y.
    eapply (solve_run_in_range e offerPool offerUser q); eassumption.
  - intros Hfit.
    edestruct (first_iterate e offerPool offerUser q) as (Hx1 & _);
      try eassumption.
    rewrite Ha in Hx1. rewrite <- Hx1 in Hfit.
    edestruct (solve_run_returns e offerPool offerUser q)
      as (ex & y & Hrun); try eassumption.
    exists y. apply (solve_returned e ex y).
    unfold returned. now rewrite Hrun.
Qed.

Lemma C6_single_asset_bounds_witness :
  exists e,
    Equation_new 10000 1000000 0 1000000 = ret e /\
    0 < b e /\
    (forall x, returned (solve e) = Some (BN.toString x) ->
               0 <= x <= 10000) /\
    ((1000000 * 1000000 * 10000) ÷ b e < 2 ^ 53 ->
       exists x, returned (solve e) = Some (BN.toString x)).
Proof.
  apply (C6_single_asset_bounds 10000 1000000 1000000); try lia.
  vm_compute. reflexivity.
Defined.

(** ** The iteration [solve] performs *)

Lemma slow_equation_built :
  Equation_new 66567997 100002 0 1000 = ret slow_equation.
Proof. reflexivity. Qed.

Lemma slow_equation_run :
  returned (solve_run slow_equation) = Some (Exhausted, 2615323) /\
  List.length (console (solve_run slow_equation)) = 32%nat.
Proof. split; vm_compute; reflexivity. Qed.

(** C2: [solve] performs the Newton-Raphson iteration from x0 = 0 with at
    most 32 turns, 32 being reached.  The n-th turn (from 0) works on the
    iterate x_n: it computes value = a*x_n^2 + b*x_n + c and derivative =
    2*a*x_n + b, and its console line shows them together with the next
    iterate x_(n+1) = x_n - value div derivative, the quotient truncated.
    What [solve] returns is the numeral of the last iterate computed. *)
Theorem C2_newton_iteration :
  (forall e x,
     computeValue e x = a e * x ^ 2 + b e * x + c e /\
     computeDerivValue e x = 2 * a e * x + b e) /\
  (forall e,
     iterate e 0 = 0 /\
     forall n,
       iterate e (S n) =
         iterate e n
         - computeValue e (iterate e n) ÷ computeDerivValue e (iterate e n)) /\
  (forall e,
     (List.length (console (solve e)) <= 32)%nat /\
     (forall n line,
        nth_error (console (solve e)) n = Some line ->
        line = IterationLine (n + 1) (iterate e (S n))
                 (computeValue e (iterate e n))
                 (computeDerivValue e (iterate e n))) /\
     (forall s,
        returned (solve e) = Some s ->
        s = BN.toString (iterate e (List.length (console (solve e)))))) /\
  (exists e, List.length (console (solve e)) = 32%nat).
Proof.
  split; [|split; [|split]].
  - intros e x. split; [apply computeValue_spec | reflexivity].
  - intros e. split; [reflexivity|]. intros n.
    rewrite computeValue_spec, computeDerivValue_spec. reflexivity.
  - intros e. pose proof (solve_run_facts e) as F.
    rewrite solve_console. split; [|split].
    + exact (lf_length _ _ _ _ _ F).
    + intros n line Hn. rewrite computeValue_spec, computeDerivValue_spec.
      exact (lf_lines _ _ _ _ _ F n line Hn).
    + intros s Hs.
      destruct (solve_returned_inv e s Hs) as (ex & y & Hrun & ->).
      now rewrite (lf_result _ _ _ _ _ F ex y Hrun).
  - exists slow_equation. rewrite solve_console.
    exact (proj2 slow_equation_run).
Qed.

Lemma C2_newton_iteration_witness :
  IterationLine 1 5007 (-10000000000000000) 1996970000000
  = IterationLine (0 + 1)
      (iterate {| a := 1000000; b := 1996970000000;
                  c := -10000000000000000 |} 1)
      (computeValue {| a := 1000000; b := 1996970000000;
                       c := -10000000000000000 |}
         (iterate {| a := 1000000; b := 1996970000000;
                     c := -10000000000000000 |} 0))
      (computeDerivValue {| a := 1000000; b := 1996970000000;
                            c := -10000000000000000 |}
         (iterate {| a := 1000000; b := 1996970000000;
                     c := -10000000000000000 |} 0)).
Proof.
  apply (proj1 (proj2 (proj1 (proj2 (proj2 C2_newton_iteration))
                         {| a := 1000000; b := 1996970000000;
                            c := -10000000000000000 |})) 0%nat).
  vm_compute. reflexivity.
Defined.

(** ** Iterates beyond 53 bits *)

Lemma iterate_stable e k :
  iterate e (S k) = iterate e k ->
  forall n, (k <= n)%nat -> iterate e n = iterate e k.
Proof.
  intros Hst n Hn. replace n with ((n - k) + k)%nat by lia.
  unfold iterate, iterate_from. rewrite Nat.iter_add.
  apply (iterate_from_fixed e (iterate e k) (n - k)). exact Hst.
Qed.

Lemma large_equation_built :
  Equation_new (10 ^ 17) (10 ^ 18) 0 (10 ^ 18) = ret large_equation.
Proof. reflexivity. Qed.

Lemma large_equation_run :
  solve large_equation =
    mkM [IterationLine 1 50082636349977462 (c large_equation)
           (b large_equation)]
        (inl BN.number_too_large).
Proof. vm_compute. reflexivity. Qed.

Lemma large_equation_iterates :
  iterate large_equation 1 = 50082636349977462 /\
  iterate large_equation 2 = 48886436242884079 /\
  iterate large_equation 3 = 48885753066360283 /\
  iterate large_equation 4 = 48885753066137444 /\
  iterate large_equation 5 = 48885753066137444.
Proof. repeat split; vm_compute; reflexivity. Qed.

Lemma large_equation_derivative n :
  computeDerivValue large_equation (iterate large_equation n) <> 0.
Proof.
  destruct large_equation_iterates as (H1 & H2 & H3 & H4 & H5).
  assert (Hst : iterate large_equation 5 = iterate large_equation 4)
    by congruence.
  destruct (Nat.le_gt_cases 4 n) as [Hn|Hn].
  - rewrite (iterate_stable _ 4%nat Hst n Hn), H4. vm_compute. discriminate.
  - do 4 (destruct n as [|n]; [vm_compute; discriminate|]). lia.
Qed.

(** C3, evaluated where it fails: the loop compares [x.toNumber()] with
    [xPrev.toNumber()], not the integers.  On [large_equation] the first
    iterate has 56 bits, so the first turn throws, although in full
    precision the iterates first agree at the fifth turn, where the rule
    the claim states would stop and return 48885753066137444. *)
Theorem C3_termination_test_narrows :
  Equation_new (10 ^ 17) (10 ^ 18) 0 (10 ^ 18) = ret large_equation /\
  thrown (solve large_equation) = Some BN.number_too_large /\
  List.length (console (solve large_equation)) = 1%nat /\
  iterate large_equation 1 <> iterate large_equation 0 /\
  (forall n, (n < 4)%nat ->
     iterate large_equation (S n) <> iterate large_equation n) /\
  iterate large_equation 5 = iterate large_equation 4 /\
  iterate large_equation 5 = 48885753066137444.
Proof.
  destruct large_equation_iterates as (H1 & H2 & H3 & H4 & H5).
  split; [exact large_equation_built|].
  rewrite large_equation_run.
  repeat split; try congruence.
  - rewrite H1. discriminate.
  - intros n Hn.
    do 4 (destruct n as [|n];
          [rewrite ?H1, ?H2, ?H3, ?H4; discriminate|]).
    lia.
Qed.

(** C10: [solve] is not total on well-formed equations.  There are
    amounts (non-negative deposits, positive reserves) whose equation makes
    [solve] throw although no derivative along the iteration is 0; and
    whenever an iterate within the 32 turns has magnitude above 2^53 - 1,
    the derivatives up to there being non-zero, the [toNumber] of the
    termination test throws. *)
Theorem C10_solve_not_total :
  (exists offerUser offerPool askUser askPool e,
     0 <= offerUser /\ 0 < offerPool /\ 0 <= askUser /\ 0 < askPool /\
     Equation_new offerUser offerPool askUser askPool = ret e /\
     (forall n, computeDerivValue e (iterate e n) <> 0) /\
     thrown (solve e) = Some BN.number_too_large /\
     returned (solve e) = None) /\
  (forall e n,
     (n < 32)%nat ->
     (forall k, (k <= n)%nat -> computeDerivValue e (iterate e k) <> 0) ->
     2 ^ 53 - 1 < Z.abs (iterate e (S n)) ->
     thrown (solve e) = Some BN.number_too_large /\
     returned (solve e) = None).
Proof.
  split.
  - exists (10 ^ 17), (10 ^ 18), 0, (10 ^ 18), large_equation.
    do 4 (split; [lia|]).
    split; [exact large_equation_built|].
    split; [exact large_equation_derivative|].
    rewrite large_equation_run. split; reflexivity.
  - intros e n Hn Hd Hbig.
    assert (Hrun : thrown (solve_run e) = Some BN.number_too_large).
    { unfold solve_run.
      rewrite (solve_loop_overflow e MAX_ITERATIONS 0%nat 0 n); trivial.
      unfold fits53. apply Z.ltb_ge. fold (iterate e (S n)). lia. }
    pose proof (solve_thrown e _ Hrun) as Hth.
    split; [exact Hth|].
    unfold thrown in Hth. unfold returned.
    destruct (outcome (solve e)); [reflexivity | discriminate].
Qed.

Lemma C10_solve_not_total_witness :
  thrown (solve large_equation) = Some BN.number_too_large /\
  returned (solve large_equation) = None.
Proof.
  apply (proj2 C10_solve_not_total large_equation 0%nat).
  - lia.
  - intros k _. apply large_equation_derivative.
  - vm_compute. reflexivity.
Defined.

(** ** What the result tells about convergence *)

Lemma quick_equation_built :
  Equation_new 5229597 (10 ^ 9) 0 (10 ^ 9) = ret quick_equation.
Proof. reflexivity. Qed.

Lemma quick_equation_run :
  returned (solve_run quick_equation) = Some (Break, 2615323) /\
  List.length (console (solve_run quick_equation)) = 3%nat.
Proof. split; vm_compute; reflexivity. Qed.

Lemma quick_equation_solve :
  outcome (solve quick_equation) = inr (BN.toString 2615323).
Proof. vm_compute. reflexivity. Qed.

Lemma slow_equation_solve :
  outcome (solve slow_equation) = inr (BN.toString 2615323).
Proof. vm_compute. reflexivity. Qed.

(** C9, as the specification states it, fails: [slow_equation] exhausts
    the 32 turns with iterates still moving, [quick_equation] converges,
    and [solve] returns the same string for both, so that no reading of
    the result tells the two apart. *)
Lemma C9_result_counterexample :
  Equation_new 5229597 (10 ^ 9) 0 (10 ^ 9) = ret quick_equation /\
  Equation_new 66567997 100002 0 1000 = ret slow_equation /\
  returned (solve_run quick_equation) = Some (Break, 2615323) /\
  returned (solve_run slow_equation) = Some (Exhausted, 2615323) /\
  iterate slow_equation 33 <> iterate slow_equation 32 /\
  outcome (solve quick_equation) = outcome (solve slow_equation) /\
  ~ (exists report : JsError + string -> LoopExit,
       forall e ex x,
         returned (solve_run e) = Some (ex, x) ->
         report (outcome (solve e)) = ex).
Proof.
  destruct quick_equation_run as [Hq _], slow_equation_run as [Hs _].
  assert (Hsame : outcome (solve quick_equation)
                  = outcome (solve slow_equation))
    by (rewrite quick_equation_solve, slow_equation_solve; reflexivity).
  split; [exact quick_equation_built|].
  split; [exact slow_equation_built|].
  split; [exact Hq|]. split; [exact Hs|].
  split; [vm_compute; discriminate|].
  split; [exact Hsame|].
  intros [report Hreport].
  pose proof (Hreport _ _ _ Hq) as H1.
  pose proof (Hreport _ _ _ Hs) as H2.
  rewrite Hsame in H1. congruence.
Qed.

(** C9, amended: the result of [solve] is the numeral of the last iterate
    and nothing more, whichever way the loop ended.  When the 32 turns are
    exhausted with every iterate differing from the one before, [solve]
    returns the 32nd iterate; when the loop stops on two equal iterates it
    returns that iterate.  The result carries no mark of which happened. *)
Theorem C9_result_is_last_iterate (e : Equation) (ex : LoopExit) (x : Z) :
  returned (solve_run e) = Some (ex, x) ->
  outcome (solve e) = inr (BN.toString x) /\
  match ex with
  | Exhausted =>
      List.length (console (solve e)) = 32%nat /\
      x = iterate e 32 /\
      forall n, (n < 32)%nat -> iterate e (S n) <> iterate e n
  | Break =>
      exists n, (n < 32)%nat /\
        List.length (console (solve e)) = S n /\
        x = iterate e (S n) /\
        iterate e (S n) = iterate e n
  end.
Proof.
  intros Hret. pose proof (solve_run_facts e) as F.
  assert (Hrun : outcome (solve_run e) = inr (ex, x)).
  { unfold returned in Hret.
    destruct (outcome (solve_run e)); [discriminate | congruence]. }
  split.
  - rewrite solve_unfold. cbn [outcome]. now rewrite Hrun.
  - rewrite solve_console.
    pose proof (lf_result _ _ _ _ _ F ex x Hrun) as Hx.
    pose proof (lf_length _ _ _ _ _ F) as Hlen.
    destruct ex.
    + destruct (lf_break _ _ _ _ _ F x Hrun) as (n & Hn & Hst).
      exists n. rewrite Hn in Hx, Hlen. unfold MAX_ITERATIONS in Hlen.
      repeat split; [lia | exact Hn | exact Hx | exact Hst].
    + destruct (lf_exhausted _ _ _ _ _ F x Hrun) as [Hn Hall].
      rewrite Hn in Hx. repeat split; [exact Hn | exact Hx | exact Hall].
Qed.

Lemma C9_result_is_last_iterate_witness :
  outcome (solve slow_equation) = inr (BN.toString 2615323) /\
  List.length (console (solve slow_equation)) = 32%nat /\
  2615323 = iterate slow_equation 32 /\
  forall n, (n < 32)%nat ->
            iterate slow_equation (S n) <> iterate slow_equation n.
Proof.
  apply (C9_result_is_last_iterate slow_equation Exhausted 2615323).
  vm_compute. reflexivity.
Defined.

(** * Further properties *)

(** ** More on the swap simulator *)

Lemma returnAmountAfterFee_eq offerAmount offerDepth askDepth :
  returnAmountAfterFee offerAmount offerDepth askDepth
  = returnAmount offerAmount offerDepth askDepth
    - (returnAmount offerAmount offerDepth askDepth * 30) ÷ 10000.
Proof. reflexivity. Qed.

(** The whole run of the simulator when its first division succeeds. *)
Lemma computeXykSwapOutput_run offerAmount offerDepth askDepth :
  offerDepth + offerAmount <> 0 ->
  computeXykSwapOutput offerAmount offerDepth askDepth =
    mkM [CpLine (offerDepth * askDepth);
         ReturnAmountLine (returnAmount offerAmount offerDepth askDepth);
         CommissionLine
           ((returnAmount offerAmount offerDepth askDepth * 30) ÷ 10000)]
        (inr (BN.toString
                (returnAmountAfterFee offerAmount offerDepth askDepth))).
Proof.
  intros Hnz. unfold computeXykSwapOutput.
  rewrite bind_log. unfold BN.add, BN.mul, BN.sub.
  rewrite (BNFacts.div_nonzero _ _ Hnz), bind_ret_l.
  rewrite BNFacts.div_nonzero by (unfold DECIMAL_FRACTIONAL; lia).
  rewrite bind_ret_l, bind_log.
  rewrite BNFacts.div_nonzero by lia.
  rewrite bind_ret_l, bind_log.
  reflexivity.
Qed.

(** X1: offering nothing returns "0", with return amount 0 and commission
    0 on the console, whatever the ask reserve, as long as the offer
    reserve is not 0. *)
Theorem X1_swap_of_nothing offerDepth askDepth :
  offerDepth <> 0 ->
  computeXykSwapOutput 0 offerDepth askDepth =
    mkM [CpLine (offerDepth * askDepth); ReturnAmountLine 0; CommissionLine 0]
        (inr "0"%string).
Proof.
  intros Hod.
  assert (HR : returnAmount 0 offerDepth askDepth = 0).
  { unfold returnAmount. rewrite Z.add_0_r.
    replace (offerDepth * askDepth * 10 ^ 18)
      with (askDepth * 10 ^ 18 * offerDepth) by ring.
    rewrite Z.quot_mul by exact Hod.
    rewrite Z.sub_diag. reflexivity. }
  rewrite computeXykSwapOutput_run by lia.
  rewrite returnAmountAfterFee_eq, HR. reflexivity.
Qed.

Lemma X1_swap_of_nothing_witness :
  computeXykSwapOutput 0 1000000 2000000 =
    mkM [CpLine (1000000 * 2000000); ReturnAmountLine 0; CommissionLine 0]
        (inr "0"%string).
Proof. apply (X1_swap_of_nothing 1000000 2000000). lia. Defined.

(** The amount before the commission against the exact constant-product
    amount [askDepth * offerAmount / (offerDepth + offerAmount)]: less than
    one unit below it, and above it by less than
    [(offerDepth + offerAmount) / 10^18] of a unit. *)
Lemma returnAmount_bounds offerAmount offerDepth askDepth :
  0 <= offerAmount -> 0 < offerDepth -> 0 < askDepth ->
  let s := offerDepth + offerAmount in
  let R := returnAmount offerAmount offerDepth askDepth in
  0 <= R <= askDepth /\
  askDepth * offerAmount < (R + 1) * s /\
  10 ^ 18 * (R * s - askDepth * offerAmount) < s.
Proof.
  intros Hoa Hod Had s R. subst R. unfold returnAmount. fold s.
  assert (Hs : 0 < s) by (unfold s; lia).
  destruct (quot_nonneg_bounds (offerDepth * askDepth * 10 ^ 18) s Hs
              ltac:(nia)) as (Ha0 & Halo & Hahi).
  revert Ha0 Halo Hahi.
  generalize ((offerDepth * askDepth * 10 ^ 18) ÷ s). intros after Ha0 Halo Hahi.
  assert (Hale : after <= askDepth * 10 ^ 18).
  { assert (after * offerDepth <= (askDepth * 10 ^ 18) * offerDepth)
      by (unfold s in *; nia).
    apply Z.mul_le_mono_pos_r in H; lia. }
  destruct (quot_nonneg_bounds (askDepth * 10 ^ 18 - after) (10 ^ 18)
              ltac:(lia) ltac:(lia)) as (HR0 & HRlo & HRhi).
  revert HR0 HRlo HRhi.
  generalize ((askDepth * 10 ^ 18 - after) ÷ 10 ^ 18). intros R HR0 HRlo HRhi.
  change (10 ^ 18) with 1000000000000000000 in *.
  split; [lia|]. unfold s in *. split; nia.
Qed.

(** The commission is three thousandths of the amount, rounded down. *)
Lemma commission_bounds R :
  0 <= R ->
  0 <= (R * 30) ÷ 10000 <= R /\
  10000 * ((R * 30) ÷ 10000) <= 30 * R < 10000 * ((R * 30) ÷ 10000 + 1).
Proof.
  intros HR.
  destruct (quot_nonneg_bounds (R * 30) 10000 ltac:(lia) ltac:(lia))
    as (H0 & Hlo & Hhi). lia.
Qed.

(** X3: what the console shows of a swap: the amount before the commission is
    less than one unit below the exact constant-product amount and at most
    [(offerDepth + offerAmount) / 10^18] above it; the commission is three
    thousandths of it, rounded down; the result is their difference. *)
Theorem X3_swap_accuracy offerAmount offerDepth askDepth :
  0 <= offerAmount -> 0 < offerDepth -> 0 < askDepth ->
  exists R C,
    computeXykSwapOutput offerAmount offerDepth askDepth =
      mkM [CpLine (offerDepth * askDepth); ReturnAmountLine R;
           CommissionLine C]
          (inr (BN.toString (R - C))) /\
    askDepth * offerAmount < (R + 1) * (offerDepth + offerAmount) /\
    10 ^ 18 * (R * (offerDepth + offerAmount) - askDepth * offerAmount)
      < offerDepth + offerAmount /\
    10000 * C <= 30 * R < 10000 * (C + 1).
Proof.
  intros Hoa Hod Had.
  destruct (returnAmount_bounds offerAmount offerDepth askDepth Hoa Hod Had)
    as ([HR0 _] & Hlo & Hhi).
  destruct (commission_bounds _ HR0) as (_ & HC).
  eexists _, _. split; [apply computeXykSwapOutput_run; lia|].
  auto.
Qed.

Lemma X3_swap_accuracy_witness :
  exists R C,
    computeXykSwapOutput 1000 1000000 1000000 =
      mkM [CpLine (1000000 * 1000000); ReturnAmountLine R;
           CommissionLine C]
          (inr (BN.toString (R - C))) /\
    1000000 * 1000 < (R + 1) * (1000000 + 1000) /\
    10 ^ 18 * (R * (1000000 + 1000) - 1000000 * 1000) < 1000000 + 1000 /\
    10000 * C <= 30 * R < 10000 * (C + 1).
Proof. apply (X3_swap_accuracy 1000 1000000 1000000); lia. Defined.

(** X2: for a non-negative offer and positive reserves the amount returned
    is never negative and never more than the pool holds of the asked
    asset. *)
Theorem X2_swap_within_reserve offerAmount offerDepth askDepth :
  0 <= offerAmount -> 0 < offerDepth -> 0 < askDepth ->
  exists r,
    returned (computeXykSwapOutput offerAmount offerDepth askDepth)
      = Some (BN.toString r) /\
    0 <= r <= askDepth.
Proof.
  intros Hoa Hod Had.
  exists (returnAmountAfterFee offerAmount offerDepth askDepth).
  split; [apply computeXykSwapOutput_nonzero; lia|].
  rewrite returnAmountAfterFee_eq.
  destruct (returnAmount_bounds offerAmount offerDepth askDepth Hoa Hod Had)
    as ([HR0 HR1] & _).
  destruct (commission_bounds _ HR0) as (HC & _). lia.
Qed.

Lemma X2_swap_within_reserve_witness :
  exists r,
    returned (computeXykSwapOutput 1000 1000000 1000000)
      = Some (BN.toString r) /\
    0 <= r <= 1000000.
Proof. apply (X2_swap_within_reserve 1000 1000000 1000000); lia. Defined.

(** X4: paying the returned amount does not lower the product of the
    reserves, as long as the offer side stays within 10^18 after the
    swap. *)
Theorem X4_swap_keeps_product offerAmount offerDepth askDepth r :
  0 <= offerAmount -> 0 < offerDepth -> 0 < askDepth ->
  offerDepth + offerAmount <= 10 ^ 18 ->
  returned (computeXykSwapOutput offerAmount offerDepth askDepth)
    = Some (BN.toString r) ->
  offerDepth * askDepth <= (offerDepth + offerAmount) * (askDepth - r).
Proof.
  intros Hoa Hod Had Hs.
  rewrite computeXykSwapOutput_nonzero by lia. intros [= Hr].
  apply BNFacts.toString_inj in Hr. subst r.
  rewrite returnAmountAfterFee_eq.
  destruct (returnAmount_bounds offerAmount offerDepth askDepth Hoa Hod Had)
    as ([HR0 HR1] & _ & Hhi).
  destruct (commission_bounds _ HR0) as (HC & _).
  revert HR0 HR1 Hhi HC.
  generalize (returnAmount offerAmount offerDepth askDepth). intros R.
  generalize ((R * 30) ÷ 10000). intros C HR0 HR1 Hhi HC.
  change (10 ^ 18) with 1000000000000000000 in *.
  assert (R * (offerDepth + offerAmount) - askDepth * offerAmount <= 0) by lia.
  nia.
Qed.

Lemma X4_swap_keeps_product_witness :
  1000000 * 1000000 <= (1000000 + 1000) * (1000000 - 997).
Proof.
  apply (X4_swap_keeps_product 1000 1000000 1000000 997); try lia;
    vm_compute; first [reflexivity | discriminate].
Defined.

(** Floors of fractions compare like the fractions. *)
Lemma div_le_cross p1 s1 p2 s2 :
  0 <= p1 -> 0 < s1 -> 0 < s2 -> p1 * s2 <= p2 * s1 -> p1 / s1 <= p2 / s2.
Proof.
  intros Hp Hs1 Hs2 Hc.
  apply Z.div_le_lower_bound; [exact Hs2|].
  pose proof (Z.mul_div_le p1 s1 Hs1) as Hq.
  pose proof (Z.div_pos p1 s1 Hp Hs1) as Hq0.
  assert (H : s1 * (s2 * (p1 / s1)) <= s1 * p2) by nia.
  apply Z.mul_le_mono_pos_l in H; assumption.
Qed.

(** A deeper ask reserve returns at least as much. *)
Lemma returnAmountAfterFee_mono_askDepth
    offerAmount offerDepth askDepth1 askDepth2 :
  0 <= offerAmount -> 0 < offerDepth ->
  0 < askDepth1 <= askDepth2 ->
  returnAmountAfterFee offerAmount offerDepth askDepth1
    <= returnAmountAfterFee offerAmount offerDepth askDepth2.
Proof.
  intros Hoa Hod [H1 H12]. rewrite !returnAmountAfterFee_eq.
  apply after_fee_mono. unfold returnAmount.
  apply Z.quot_le_mono; [lia|].
  set (s := offerDepth + offerAmount).
  assert (Hs : 0 < s) by (unfold s; lia).
  rewrite !Z.quot_div_nonneg by nia.
  change (10 ^ 18) with 1000000000000000000.
  set (D := 1000000000000000000).
  assert (Hle : offerDepth * askDepth2 * D
                <= offerDepth * askDepth1 * D + (D * (askDepth2 - askDepth1)) * s)
    by (unfold s, D; nia).
  apply (Z.div_le_mono _ _ s Hs) in Hle.
  rewrite Z.div_add in Hle by lia. lia.
Qed.

(** A deeper offer reserve returns at most as much. *)
Lemma returnAmountAfterFee_anti_offerDepth
    offerAmount offerDepth1 offerDepth2 askDepth :
  0 <= offerAmount -> 0 < askDepth ->
  0 < offerDepth1 <= offerDepth2 ->
  returnAmountAfterFee offerAmount offerDepth2 askDepth
    <= returnAmountAfterFee offerAmount offerDepth1 askDepth.
Proof.
  intros Hoa Had [H1 H12]. rewrite !returnAmountAfterFee_eq.
  apply after_fee_mono. unfold returnAmount.
  apply Z.quot_le_mono; [lia|].
  rewrite !Z.quot_div_nonneg by nia.
  assert (offerDepth1 * askDepth * 10 ^ 18 / (offerDepth1 + offerAmount)
          <= offerDepth2 * askDepth * 10 ^ 18 / (offerDepth2 + offerAmount));
    [|lia].
  apply div_le_cross; try nia.
Qed.

(** X5: for a fixed non-negative offer and a fixed positive offer reserve,
    a deeper ask reserve returns at least as much. *)
Theorem X5_swap_monotone_askDepth
    offerAmount offerDepth askDepth1 askDepth2 r1 r2 :
  0 <= offerAmount -> 0 < offerDepth ->
  0 < askDepth1 <= askDepth2 ->
  returned (computeXykSwapOutput offerAmount offerDepth askDepth1)
    = Some (BN.toString r1) ->
  returned (computeXykSwapOutput offerAmount offerDepth askDepth2)
    = Some (BN.toString r2) ->
  r1 <= r2.
Proof.
  intros Hoa Hod Had.
  rewrite !computeXykSwapOutput_nonzero by lia. intros [= E1] [= E2].
  apply BNFacts.toString_inj in E1, E2. subst r1 r2.
  now apply returnAmountAfterFee_mono_askDepth.
Qed.

Lemma X5_swap_monotone_askDepth_witness : 997 <= 1993.
Proof.
  apply (X5_swap_monotone_askDepth 1000 1000000 1000000 2000000 997 1993);
    try lia; vm_compute; reflexivity.
Defined.

(** X6: for a fixed non-negative offer and a fixed positive ask reserve, a
    deeper offer reserve returns at most as much. *)
Theorem X6_swap_antitone_offerDepth
    offerAmount offerDepth1 offerDepth2 askDepth r1 r2 :
  0 <= offerAmount -> 0 < askDepth ->
  0 < offerDepth1 <= offerDepth2 ->
  returned (computeXykSwapOutput offerAmount offerDepth1 askDepth)
    = Some (BN.toString r1) ->
  returned (computeXykSwapOutput offerAmount offerDepth2 askDepth)
    = Some (BN.toString r2) ->
  r2 <= r1.
Proof.
  intros Hoa Had Hod.
  rewrite !computeXykSwapOutput_nonzero by lia. intros [= E1] [= E2].
  apply BNFacts.toString_inj in E1, E2. subst r1 r2.
  now apply returnAmountAfterFee_anti_offerDepth.
Qed.

Lemma X6_swap_antitone_offerDepth_witness : 498 <= 997.
Proof.
  apply (X6_swap_antitone_offerDepth 1000 1000000 2000000 1000000 997 498);
    try lia; vm_compute; reflexivity.
Defined.

(** ** How a run of the loop fails, and where it breaks *)

Lemma solve_loop_thrown e fuel :
  forall i x err,
    fits53 x = true ->
    outcome (solve_loop e fuel i x x) = inl err ->
    let n := List.length (console (solve_loop e fuel i x x)) in
    (err = BN.assertion_failed /\ (n < fuel)%nat /\
     spec_derivative e (iterate_from e x n) = 0) \/
    (err = BN.number_too_large /\
     exists m, n = S m /\
       spec_derivative e (iterate_from e x m) <> 0 /\
       fits53 (iterate_from e x (S m)) = false).
Proof.
  induction fuel as [|fuel IH]; intros i x err Hx; [discriminate|].
  rewrite solve_loop_step.
  destruct (Z.eqb_spec (spec_derivative e x) 0) as [Hd|Hd].
  { intros [= <-]. left. cbn. repeat split; [lia | exact Hd]. }
  cbv zeta. rewrite Hx, andb_true_r.
  destruct (fits53 (spec_next e x)) eqn:Hfit.
  - destruct (spec_next e x =? x); [discriminate|].
    unfold prepend. cbn [console outcome List.length]. intros Hout.
    destruct (IH (S i) (spec_next e x) err Hfit Hout)
      as [(-> & Hn & Hz)|(-> & m & Hm & Hnz & Hbig)].
    + left. cbv zeta in *. split; [reflexivity|]. split; [lia|].
      rewrite iterate_from_S. exact Hz.
    + right. cbv zeta in *. split; [reflexivity|]. exists (S m).
      rewrite Hm, (iterate_from_S e x m), (iterate_from_S e x (S m)). auto.
  - intros [= <-]. right. split; [reflexivity|]. exists O.
    cbn. auto.
Qed.

Lemma solve_loop_break e fuel :
  forall i x y,
    outcome (solve_loop e fuel i x x) = inr (Break, y) ->
    spec_derivative e y <> 0 /\
    spec_value e y ÷ spec_derivative e y = 0.
Proof.
  induction fuel as [|fuel IH]; intros i x y; [discriminate|].
  rewrite solve_loop_step.
  destruct (Z.eqb_spec (spec_derivative e x) 0) as [Hd|Hd]; [discriminate|].
  cbv zeta.
  destruct (fits53 (spec_next e x) && fits53 x); [|discriminate].
  destruct (Z.eqb_spec (spec_next e x) x) as [Heq|Hne].
  - intros [= <-]. rewrite Heq. split; [exact Hd|].
    unfold spec_next in Heq. lia.
  - apply IH.
Qed.

(** X12: every failure of [solve] is one of the two assertions of bn.js, and
    the console tells where: after [n] lines, a division by a derivative
    that is 0 at the [n]-th iterate, or a last line whose [x] does not fit
    53 bits. *)
Theorem X12_solve_failures e err :
  thrown (solve e) = Some err ->
  let n := List.length (console (solve e)) in
  (err = BN.assertion_failed /\ (n < 32)%nat /\
   computeDerivValue e (iterate e n) = 0) \/
  (err = BN.number_too_large /\ (1 <= n <= 32)%nat /\
   2 ^ 53 <= Z.abs (iterate e n)).
Proof.
  rewrite solve_unfold. unfold thrown. cbn [outcome console].
  destruct (outcome (solve_run e)) as [err'|r] eqn:Hrun; [|discriminate].
  intros [= ->]. cbv zeta.
  pose proof (lf_length _ _ _ _ _ (solve_run_facts e)) as Hlen.
  destruct (solve_loop_thrown e MAX_ITERATIONS 0%nat 0 err eq_refl Hrun)
    as [(-> & Hn & Hz)|(-> & m & Hm & _ & Hbig)].
  - left. auto.
  - right. split; [reflexivity|]. fold (solve_run e) in Hm.
    rewrite Hm in *. split; [unfold MAX_ITERATIONS in Hlen; lia|].
    unfold fits53 in Hbig. apply Z.ltb_ge in Hbig. exact Hbig.
Qed.

Lemma X12_solve_failures_witness :
  let n := List.length (console (solve large_equation)) in
  (BN.number_too_large = BN.assertion_failed /\ (n < 32)%nat /\
   computeDerivValue large_equation (iterate large_equation n) = 0) \/
  (BN.number_too_large = BN.number_too_large /\ (1 <= n <= 32)%nat /\
   2 ^ 53 <= Z.abs (iterate large_equation n)).
Proof.
  apply (X12_solve_failures large_equation BN.number_too_large).
  vm_compute. reflexivity.
Defined.

(** X13: a result found in fewer than 32 turns is an [x] at which the value
    [a*x^2 + b*x + c] is smaller in magnitude than the derivative
    [2*a*x + b]. *)
Theorem X13_solve_converged_residual e x :
  returned (solve e) = Some (BN.toString x) ->
  (List.length (console (solve e)) < 32)%nat ->
  Z.abs (computeValue e x) < Z.abs (computeDerivValue e x).
Proof.
  intros Hret Hlen.
  destruct (solve_returned_inv e _ Hret) as (ex & y & Hrun & Hxy).
  apply BNFacts.toString_inj in Hxy. subst y.
  rewrite solve_console in Hlen.
  destruct ex.
  - destruct (solve_loop_break e _ _ _ _ Hrun) as [Hd Hq].
    rewrite computeValue_spec, computeDerivValue_spec.
    apply Z.quot_small_iff; assumption.
  - destruct (lf_exhausted _ _ _ _ _ (solve_run_facts e) x Hrun) as [Hn _].
    rewrite Hn in Hlen. unfold MAX_ITERATIONS in Hlen. lia.
Qed.

Lemma X13_solve_converged_residual_witness :
  Z.abs (computeValue quick_equation 2615323)
  < Z.abs (computeDerivValue quick_equation 2615323).
Proof.
  apply (X13_solve_converged_residual quick_equation 2615323).
  - vm_compute. reflexivity.
  - vm_compute. lia.
Defined.

(** ** Value, derivative and special equations *)

(** X7: [computeDerivValue] is the derivative of [computeValue]: the value
    at [x + h] is the value at [x], plus [h] times the derivative at [x],
    plus [a * h^2]. *)
Theorem X7_computeValue_shift e x h :
  computeValue e (x + h)
  = computeValue e x + h * computeDerivValue e x + a e * h ^ 2.
Proof.
  unfold computeValue, computeDerivValue, BN.add, BN.mul. ring.
Qed.

(** [solve] fails at once, before writing a line, exactly when [b] is 0. *)
Lemma solve_fails_at_once e :
  solve e = mkM [] (inl BN.assertion_failed) <-> b e = 0.
Proof.
  rewrite solve_unfold. unfold solve_run, MAX_ITERATIONS.
  rewrite solve_loop_step.
  assert (Hd : spec_derivative e 0 = b e) by (unfold spec_derivative; lia).
  rewrite Hd. destruct (Z.eqb_spec (b e) 0) as [Hb|Hb].
  - split; [intros _; exact Hb | intros _; reflexivity].
  - split; [|contradiction]. cbv zeta.
    destruct (fits53 (spec_next e 0) && fits53 0).
    + destruct (spec_next e 0 =? 0); cbn [prepend console]; discriminate.
    + discriminate.
Qed.

(** X8: [solve] throws the division assertion of bn.js at once, before
    writing any console line, exactly when the coefficient [b] is 0. *)
Theorem X8_solve_fails_at_once_iff e :
  (thrown (solve e) = Some BN.assertion_failed /\ console (solve e) = [])
  <-> b e = 0.
Proof.
  rewrite <- solve_fails_at_once. split.
  - intros [Ht Hc]. destruct (solve e) as [l o]. cbn in *. subst l.
    unfold thrown in Ht. cbn in Ht. destruct o; congruence.
  - intros ->. split; reflexivity.
Qed.

(** X9: well-formed amounts make [b] vanish and [solve] fail at once: a
    single-asset deposit of 1997 parts of the offered asset against a
    reserve of 3 parts, with an ask reserve that is a multiple of 1000. *)
Theorem X9_zero_b_amounts k m :
  0 < k -> 0 < m ->
  exists e,
    Equation_new (1997 * k) (3 * k) 0 (1000 * m) = ret e /\
    b e = 0 /\
    solve e = mkM [] (inl BN.assertion_failed).
Proof.
  intros Hk Hm. eexists. split; [apply Equation_new_eq|].
  match goal with |- context [solve ?e'] => set (e := e') end.
  assert (Hb : b e = 0).
  { cbn [e b].
    replace (1000 * m * (3 * k + 1997 * k) * 30) with (6000 * m * k * 10000)
      by ring.
    rewrite Z.quot_mul by lia. ring. }
  split; [exact Hb|]. now apply solve_fails_at_once.
Qed.

Lemma X9_zero_b_amounts_witness :
  exists e,
    Equation_new (1997 * 1) (3 * 1) 0 (1000 * 1) = ret e /\
    b e = 0 /\
    solve e = mkM [] (inl BN.assertion_failed).
Proof. apply (X9_zero_b_amounts 1 1); lia. Defined.

(** X10: a deposit already in the ratio of the reserves
    (offerPool * askUser = offerUser * askPool) needs no swap: [solve]
    returns "0" after a single turn. *)
Theorem X10_balanced_deposit_root_zero offerUser offerPool askUser askPool :
  0 < offerPool -> 0 < askPool -> 0 <= offerUser -> 0 <= askUser ->
  offerPool * askUser = offerUser * askPool ->
  exists e,
    Equation_new offerUser offerPool askUser askPool = ret e /\
    returned (solve e) = Some "0"%string /\
    List.length (console (solve e)) = 1%nat.
Proof.
  intros Hop Hap Hou Hau Hbal. eexists. split; [apply Equation_new_eq|].
  match goal with |- context [solve ?e'] => set (e := e') end.
  assert (Hc : c e = 0) by (cbn [e c]; rewrite Hbal; ring).
  assert (Hb : b e <> 0).
  { cbn [e b].
    replace (askPool * (offerPool + offerUser))
      with (offerPool * (askPool + askUser)) by nia.
    pose proof (fee_term_small (offerPool * (askPool + askUser))
                  ltac:(nia)). lia. }
  rewrite solve_unfold, (solve_run_stops_at_zero e Hc Hb).
  split; reflexivity.
Qed.

Lemma X10_balanced_deposit_root_zero_witness :
  exists e,
    Equation_new 1000 1000000 2000 2000000 = ret e /\
    returned (solve e) = Some "0"%string /\
    List.length (console (solve e)) = 1%nat.
Proof.
  apply (X10_balanced_deposit_root_zero 1000 1000000 2000 2000000); lia.
Defined.

(** X11: a linear equation ([a = 0], [b <> 0]) is solved in at most two
    turns: [solve] returns the truncated quotient [-(c ÷ b)] when it fits
    53 bits. *)
Theorem X11_solve_linear e :
  a e = 0 -> b e <> 0 -> Z.abs (c e ÷ b e) < 2 ^ 53 ->
  returned (solve e) = Some (BN.toString (- (c e ÷ b e))) /\
  (List.length (console (solve e)) <= 2)%nat.
Proof.
  intros Ha Hb Hfit.
  assert (Hv : forall x, spec_value e x = b e * x + c e)
    by (intros x; unfold spec_value; rewrite Ha; ring).
  assert (Hd : forall x, spec_derivative e x = b e)
    by (intros x; unfold spec_derivative; rewrite Ha; ring).
  assert (Hn0 : spec_next e 0 = - (c e ÷ b e)).
  { unfold spec_next. rewrite Hv, Hd.
    replace (b e * 0 + c e) with (c e) by ring. lia. }
  assert (Hn1 : spec_next e (- (c e ÷ b e)) = - (c e ÷ b e)).
  { unfold spec_next. rewrite Hv, Hd.
    replace (b e * - (c e ÷ b e) + c e) with (Z.rem (c e) (b e))
      by (pose proof (Z.quot_rem' (c e) (b e)); lia).
    pose proof (Z.rem_bound_abs (c e) (b e) Hb) as Hr.
    apply (Z.quot_small_iff _ _ Hb) in Hr. rewrite Hr. ring. }
  assert (Hf0 : fits53 0 = true) by reflexivity.
  assert (Hf1 : fits53 (- (c e ÷ b e)) = true)
    by (unfold fits53; apply Z.ltb_lt; lia).
  rewrite solve_unfold. unfold solve_run, MAX_ITERATIONS.
  rewrite solve_loop_step, Hd.
  destruct (Z.eqb_spec (b e) 0) as [|_]; [contradiction|].
  cbv zeta. rewrite Hn0, Hf0, Hf1. cbn [andb].
  destruct (Z.eqb_spec (- (c e ÷ b e)) 0) as [Hz|Hz].
  - rewrite Hz. split; [reflexivity | cbn; lia].
  - rewrite solve_loop_step, Hd.
    destruct (Z.eqb_spec (b e) 0) as [|_]; [contradiction|].
    cbv zeta. rewrite Hn1, Hf1, Z.eqb_refl. cbn [andb].
    split; [reflexivity | cbn; lia].
Qed.

Lemma X11_solve_linear_witness :
  returned (solve {| a := 0; b := 7; c := -100 |})
    = Some (BN.toString (- (-100 ÷ 7))) /\
  (List.length (console (solve {| a := 0; b := 7; c := -100 |})) <= 2)%nat.
Proof.
  apply (X11_solve_linear {| a := 0; b := 7; c := -100 |});
    [reflexivity | discriminate | reflexivity].
Defined.

(** ** Deposits beyond the reach of the equation *)

Section NegativeB.

Variable e : Equation.

Hypothesis a_pos : 0 < a e.
Hypothesis b_neg : b e < 0.
Hypothesis c_neg : c e < 0.
Hypothesis b_le_c : - b e <= - c e.

Lemma negative_step x :
  x <= -1 -> spec_derivative e x < 0 /\ spec_next e x <= -1.
Proof.
  intros Hx.
  assert (Hd : spec_derivative e x < 0) by (unfold spec_derivative; nia).
  split; [exact Hd|]. unfold spec_next.
  replace (spec_derivative e x) with (- - spec_derivative e x) by lia.
  rewrite Z.quot_opp_r by lia.
  assert (Hv : spec_value e x = a e * x * x + b e * x + c e)
    by (unfold spec_value; ring).
  assert (Hdv : - spec_derivative e x = - (2 * a e * x + b e)) by reflexivity.
  destruct (Z.le_gt_cases 0 (spec_value e x)) as [Hpos|Hneg].
  - destruct (quot_nonneg_bounds (spec_value e x) (- spec_derivative e x)
                ltac:(lia) Hpos) as (Hk0 & Hlo & Hhi).
    revert Hk0 Hlo Hhi.
    generalize (spec_value e x ÷ - spec_derivative e x). intros k Hk0 Hlo Hhi.
    rewrite Hv, Hdv in *.
    assert (k < - x) by nia. lia.
  - destruct (quot_neg_bounds (spec_value e x) (- spec_derivative e x)
                ltac:(lia) Hneg) as (Hk0 & _). lia.
Qed.

Lemma negative_first : iterate e 1 <= -1.
Proof.
  change (iterate e 1) with (spec_next e 0). unfold spec_next.
  replace (spec_value e 0) with (c e) by (unfold spec_value; ring).
  replace (spec_derivative e 0) with (b e) by (unfold spec_derivative; ring).
  replace (b e) with (- - b e) by lia.
  rewrite Z.quot_opp_r by lia.
  destruct (quot_neg_bounds (c e) (- b e) ltac:(lia) c_neg) as (Hk0 & Hlo & _).
  revert Hk0 Hlo. generalize (c e ÷ - b e). intros k Hk0 Hlo.
  assert (k <= -1) by nia. lia.
Qed.

Lemma negative_iterates n : iterate e (S n) <= -1.
Proof.
  induction n as [|n IH]; [exact negative_first|].
  rewrite iterate_S. now apply negative_step.
Qed.

Lemma negative_result ex x :
  outcome (solve_run e) = inr (ex, x) -> x <= -1.
Proof.
  intros Hrun. pose proof (solve_run_facts e) as F.
  pose proof (lf_result _ _ _ _ _ F ex x Hrun) as Hx.
  fold (iterate e (List.length (console (solve_run e)))) in Hx.
  destruct ex.
  - destruct (lf_break _ _ _ _ _ F x Hrun) as (n & Hn & _).
    rewrite Hn in Hx. rewrite Hx. apply negative_iterates.
  - destruct (lf_exhausted _ _ _ _ _ F x Hrun) as [Hn _].
    rewrite Hn in Hx. rewrite Hx. apply (negative_iterates 31).
Qed.

End NegativeB.

(** X14: a single-asset deposit so large that the fee term exceeds
    [2 * offerPool * askPool] (beyond about 665 times the reserve) makes
    [b] negative, and whatever [solve] then returns is negative. *)
Theorem X14_oversized_deposit_negative offerUser offerPool askPool :
  0 < offerPool -> 0 < askPool -> 0 < offerUser ->
  2 * offerPool * askPool
    < (askPool * (offerPool + offerUser) * 30) ÷ 10000 ->
  exists e,
    Equation_new offerUser offerPool 0 askPool = ret e /\
    b e < 0 /\
    forall x, returned (solve e) = Some (BN.toString x) -> x < 0.
Proof.
  intros Hop Hap Hou Hfee. eexists. split; [apply Equation_new_eq|].
  match goal with |- context [solve ?e'] => set (e := e') end.
  destruct (quot_nonneg_bounds (askPool * (offerPool + offerUser) * 30)
              10000 ltac:(lia) ltac:(nia)) as (_ & Hlo & _).
  revert Hfee Hlo e.
  generalize ((askPool * (offerPool + offerUser) * 30) ÷ 10000).
  intros q Hfee Hlo e.
  assert (Ha : 0 < a e) by (cbn [e a]; lia).
  assert (Hb : b e < 0) by (cbn [e b]; nia).
  assert (Hc : c e < 0) by (cbn [e c]; nia).
  assert (Hbc : - b e <= - c e) by (cbn [e b c]; nia).
  split; [exact Hb|].
  intros x Hret.
  destruct (solve_returned_inv e _ Hret) as (ex & y & Hrun & Hxy).
  apply BNFacts.toString_inj in Hxy. subst y.
  assert (x <= -1) by (eapply (negative_result e); eassumption). lia.
Qed.

Lemma X14_oversized_deposit_negative_witness :
  exists e,
    Equation_new 10000 1 0 1 = ret e /\
    b e < 0 /\
    forall x, returned (solve e) = Some (BN.toString x) -> x < 0.
Proof.
  apply (X14_oversized_deposit_negative 10000 1 1); try lia.
  vm_compute. reflexivity.
Defined.

(** ** Deposits with the asked asset in excess *)

Section ExcessAsk.

Variable e : Equation.

Hypothesis a_pos : 0 < a e.
Hypothesis b_pos : 0 < b e.
Hypothesis c_nonneg : 0 <= c e.
Hypothesis discriminant_pos : 4 * a e * c e < b e * b e.

Lemma downhill_step x :
  downhill e x -> spec_derivative e x <> 0 /\ downhill e (spec_next e x).
Proof.
  intros (Hx & Hv & Hd). split; [lia|]. unfold downhill, spec_next.
  destruct (quot_nonneg_bounds _ _ Hd Hv) as (Hk0 & Hlo & Hhi).
  revert Hk0 Hlo Hhi. generalize (spec_value e x ÷ spec_derivative e x).
  intros k Hk0 Hlo Hhi.
  assert (Ev : spec_value e (x - k)
               = spec_value e x - k * spec_derivative e x + a e * k * k)
    by (unfold spec_value, spec_derivative; ring).
  assert (Ed : spec_derivative e (x - k) = spec_derivative e x - 2 * a e * k)
    by (unfold spec_derivative; ring).
  assert (Edisc : spec_derivative e x * spec_derivative e x
                  - 4 * a e * spec_value e x = b e * b e - 4 * a e * c e)
    by (unfold spec_value, spec_derivative; ring).
  rewrite Ev, Ed.
  revert Hv Hd Hlo Hhi Edisc.
  generalize (spec_value e x) (spec_derivative e x). intros f d Hv Hd Hlo Hhi Edisc.
  split; [lia|]. split; [nia|].
  assert (0 < d * (d - 2 * a e * k)) by nia.
  nia.
Qed.

Lemma downhill_start : downhill e 0.
Proof.
  unfold downhill, spec_value, spec_derivative. lia.
Qed.

Lemma downhill_iterates n : downhill e (iterate e n).
Proof.
  induction n as [|n IH]; [exact downhill_start|].
  rewrite iterate_S. now apply downhill_step.
Qed.

End ExcessAsk.

Lemma excess_ask_discriminant u v t q bb :
  0 < v -> 0 <= t -> t < u -> 0 <= q ->
  10000 * q <= 30 * (v + t) ->
  bb = 2 * (u + v) - q ->
  0 < bb /\ 4 * ((u + v) * (u - t)) < bb * bb.
Proof.
  intros Hv Ht Htu Hq Hfee ->.
  set (B := 20000 * u + 19970 * v - 30 * t).
  assert (HB : 0 < B) by (unfold B; lia).
  assert (Hb : B <= 10000 * (2 * (u + v) - q)) by (unfold B; lia).
  split; [lia|].
  assert (H1 : B * B <= (10000 * (2 * (u + v) - q))
                        * (10000 * (2 * (u + v) - q)))
    by (apply Z.mul_le_mono_nonneg; lia).
  assert (H2 : 400000000 * ((u + v) * (u - t)) < B * B).
  { assert (E : B * B - 400000000 * ((u + v) * (u - t))
                = 398800000 * (u * v) + 398800000 * (u * t)
                  + 400000000 * (v * t)
                  + (19970 * v - 30 * t) * (19970 * v - 30 * t))
      by (unfold B; ring).
    assert (0 < u * v) by (apply Z.mul_pos_pos; lia).
    assert (0 <= u * t) by (apply Z.mul_nonneg_nonneg; lia).
    assert (0 <= v * t) by (apply Z.mul_nonneg_nonneg; lia).
    pose proof (Z.square_nonneg (19970 * v - 30 * t)).
    lia. }
  replace ((10000 * (2 * (u + v) - q)) * (10000 * (2 * (u + v) - q)))
    with (100000000 * ((2 * (u + v) - q) * (2 * (u + v) - q))) in H1 by ring.
  lia.
Qed.

(** X15: when the deposit holds the asked asset in excess of the ratio of the
    reserves, the iteration moves down from 0 and stays above the vertex:
    whatever [solve] returns lies in (-offerPool, 0], and it does return
    when offerPool is at most 2^53. *)
Theorem X15_excess_ask_deposit offerUser offerPool askUser askPool :
  0 < offerPool -> 0 < askPool -> 0 <= offerUser -> 0 <= askUser ->
  offerUser * askPool < offerPool * askUser ->
  exists e,
    Equation_new offerUser offerPool askUser askPool = ret e /\
    (forall x, returned (solve e) = Some (BN.toString x) ->
               - offerPool < x <= 0) /\
    (offerPool <= 2 ^ 53 ->
     exists x, returned (solve e) = Some (BN.toString x)).
Proof.
  intros Hop Hap Hou Hau Hex. eexists. split; [apply Equation_new_eq|].
  match goal with |- context [solve ?e'] => set (e := e') end.
  destruct (quot_nonneg_bounds (askPool * (offerPool + offerUser) * 30)
              10000 ltac:(lia) ltac:(nia)) as (Hq0 & Hlo & _).
  revert Hq0 Hlo e.
  generalize ((askPool * (offerPool + offerUser) * 30) ÷ 10000).
  intros q Hq0 Hlo e.
  destruct (excess_ask_discriminant (offerPool * askUser)
              (askPool * offerPool) (askPool * offerUser) q (b e))
    as [Hb Hdisc]; try nia.
  { cbn [e b]. ring. }
  assert (Ha : 0 < a e) by (cbn [e a]; lia).
  assert (Hc : 0 <= c e) by (cbn [e c]; nia).
  assert (Hd : 4 * a e * c e < b e * b e).
  { replace (4 * a e * c e)
      with (4 * ((offerPool * askUser + askPool * offerPool)
                 * (offerPool * askUser - askPool * offerUser)))
      by (cbn [e a c]; ring).
    exact Hdisc. }
  assert (Hb2 : b e <= 2 * offerPool * a e) by (cbn [e a b]; lia).
  assert (Hrange : forall x, downhill e x -> - offerPool < x <= 0).
  { intros x (Hx & _ & Hdx). split; [|exact Hx].
    unfold spec_derivative in Hdx. nia. }
  assert (Hiter : forall n, downhill e (iterate e n))
    by (apply downhill_iterates; assumption).
  assert (Hstep : forall x, downhill e x ->
            spec_derivative e x <> 0 /\ downhill e (spec_next e x))
    by (intros x Hx; eapply downhill_step; eassumption).
  split.
  - intros x Hret.
    destruct (solve_returned_inv e _ Hret) as (ex & y & Hrun & Hxy).
    apply BNFacts.toString_inj in Hxy. subst y.
    pose proof (lf_result _ _ _ _ _ (solve_run_facts e) ex x Hrun) as Hx.
    rewrite Hx. apply Hrange, Hiter.
  - intros Hsmall.
    destruct (solve_loop_returns e (downhill e) Hstep MAX_ITERATIONS)
      with (i := 0%nat) (x := 0) as (ex & y & Hrun).
    + intros x Hx. apply Hrange in Hx. lia.
    + apply downhill_start; assumption.
    + exists y. apply (solve_returned e ex y).
      unfold returned. fold (solve_run e) in Hrun. now rewrite Hrun.
Qed.

Lemma X15_excess_ask_deposit_witness :
  exists e,
    Equation_new 0 1000000 10000 1000000 = ret e /\
    (forall x, returned (solve e) = Some (BN.toString x) ->
               - 1000000 < x <= 0) /\
    (1000000 <= 2 ^ 53 ->
     exists x, returned (solve e) = Some (BN.toString x)).
Proof. apply (X15_excess_ask_deposit 0 1000000 10000 1000000); lia. Defined.
